(** * RNA-seq differential-expression dashboard: the script [interactive.py]

    A shallow embedding of the Streamlit page script and of the numeric
    pipeline it runs, with the properties of its specification.

    Numbers.  The script computes with IEEE doubles.  Here a double is a
    value of [fnum]: not-a-number, one of the two infinities, or an exact
    rational ([Qc], canonical fractions, so that equality is Leibniz
    equality).  Rounding and overflow are not modelled: a statement that
    needs the sums of a row to stay in the range of doubles says so
    ([within_double_range]).

    Libraries.  Three library routines are parameters of the development
    ([np.log2], the text-to-number conversion of [pd.to_numeric] and
    [pd.read_csv]).  The Benjamini-Hochberg routine of statsmodels and the
    uniform draw of numpy are written out step by step, because properties
    are stated about their results; the sort inside the routine may leave
    equal p-values in any order.  So are the reading of delimited text
    without quoting ([Reader]) and the script runner of Streamlit
    ([streamlit_run]).  Any other failure of a library call is an input of
    the run ([faults]). *)

From Stdlib Require Import QArith Qcanon Ascii String.
From stdpp Require Import base option list numbers sorting strings pretty.

Local Open Scope Qc_scope.

(** ** Exact rationals *)

Global Instance Qc_inhabited : Inhabited Qc := populate 0.

Definition Qc_of_nat (n : nat) : Qc := Qc_of_Z (Z.of_nat n).

(** [frac n d] is the fraction [n/d] in lowest terms. *)
Definition frac (n : Z) (d : positive) : Qc := Q2Qc (n # d).

Definition Qcmin (x y : Qc) : Qc := if decide (x ≤ y) then x else y.
Definition Qcmax (x y : Qc) : Qc := if decide (x ≤ y) then y else x.

(** ** The Benjamini-Hochberg routine, [multipletests(pvalues, method="fdr_bh")[1]]

    The routine belongs to statsmodels and the array operations to numpy;
    neither is under src/.  They are written out here step by step, in the
    order in which the routine performs them. *)

Module MultiTest.

(** Modelled from the spec: the order on indices by which [np.argsort]
    (numpy, not under src/) sorts, the ascending order of the values. *)
Definition key_le (a : list Qc) : relation nat := λ i j, a !!! i ≤ a !!! j.

Global Instance key_le_dec a : RelDecision (key_le a).
Proof. intros i j. unfold key_le. apply _. Defined.

(** Modelled from the spec: what [np.argsort] (numpy, not under src/) may
    return on [a], the indices of [a] in ascending order of their values;
    equal values may come in any order. *)
Definition sorts (a : list Qc) (sortind : list nat) : Prop :=
  sortind ≡ₚ seq 0 (length a) ∧ Sorted (key_le a) sortind.

(** Modelled from the spec: [np.argsort] (numpy, not under src/), here by
    merge sort. *)
Definition argsort (a : list Qc) : list nat :=
  merge_sort (key_le a) (seq 0 (length a)).

(** Modelled from the spec: [np.take(a, ind)] (numpy, not under src/). *)
Definition take (a : list Qc) (ind : list nat) : list Qc :=
  (λ i, a !!! i) <$> ind.

(** Modelled from the spec: [_ecdf(x)] of statsmodels (not under src/),
    [np.arange(1, nobs+1) / float(nobs)], the rank over the number of
    tests. *)
Definition ecdf (x : list Qc) : list Qc :=
  let nobs := length x in
  (λ k, Qc_of_nat k / Qc_of_nat nobs) <$> seq 1 nobs.

(** Modelled from the spec: [np.minimum.accumulate] (numpy, not under
    src/), the running minimum from the left, started at [acc]. *)
Fixpoint minimum_accumulate_from (acc : Qc) (l : list Qc) : list Qc :=
  match l with
  | [] => []
  | x :: l' => let m := Qcmin acc x in m :: minimum_accumulate_from m l'
  end.

(** Modelled from the spec: [np.minimum.accumulate] (numpy, not under
    src/). *)
Definition minimum_accumulate (l : list Qc) : list Qc :=
  match l with
  | [] => []
  | x :: l' => x :: minimum_accumulate_from x l'
  end.

(** Modelled from the spec: the assignment [a[a > 1] = 1] of the routine
    (statsmodels, not under src/), on one entry. *)
Definition cap_at_one (x : Qc) : Qc := if decide (1 < x) then 1 else x.

(** Modelled from the spec: [fdrcorrection(pvals, method='indep',
    is_sorted=True)[1]] of statsmodels (not under src/): divide by the
    factor, take the running minimum from the largest rank down, cap. *)
Definition fdrcorrection (pvals_sorted : list Qc) : list Qc :=
  let ecdffactor := ecdf pvals_sorted in
  let pvals_corrected_raw := zip_with Qcdiv pvals_sorted ecdffactor in
  let pvals_corrected :=
    reverse (minimum_accumulate (reverse pvals_corrected_raw)) in
  cap_at_one <$> pvals_corrected.

(** Modelled from the spec: [out = np.empty_like(vals); out[ind] = vals]
    (numpy, not under src/), the write-back to the original order. *)
Definition scatter (ind : list nat) (vals : list Qc) : list Qc :=
  foldl (λ out iv, <[iv.1 := iv.2]> out)
        (replicate (length vals) 0) (zip ind vals).

(** Modelled from the spec: [multipletests(pvals, method="fdr_bh")[1]] of
    statsmodels (not under src/), once [np.argsort] has returned [sortind].
    On an empty vector every step returns the empty vector, as the procedure
    of the specification does.  (Releases of the library up to 0.14 compute
    [1./ntests] first and raise [ZeroDivisionError] there: a failure of the
    call that the script sees as any other, see [faults] below.) *)
Definition multipletests_sorted_by (sortind : list nat) (pvals : list Qc)
  : list Qc :=
  let pvals_sorted := take pvals sortind in
  let pvals_corrected := cap_at_one <$> fdrcorrection pvals_sorted in
  scatter sortind pvals_corrected.

(** Modelled from the spec: [multipletests(pvals, method="fdr_bh")[1]] of
    statsmodels (not under src/). *)
Definition multipletests_fdr_bh (pvals : list Qc) : list Qc :=
  multipletests_sorted_by (argsort pvals) pvals.

End MultiTest.

(** ** The procedure in the words of the specification *)

Module Reference.
Import MultiTest.

(** Clip to the interval [[0,1]]. *)
Definition clip01 (x : Qc) : Qc := Qcmax 0 (Qcmin 1 x).

(** The running minimum from the largest rank down to the smallest. *)
Fixpoint running_min_down (l : list Qc) : list Qc :=
  match l with
  | [] => []
  | x :: l' =>
      match running_min_down l' with
      | [] => [x]
      | (y :: _) as r => Qcmin x y :: r
      end
  end.

(** Position of gene [g] in the ascending order, counted from 0. *)
Definition rank0 (order : list nat) (g : nat) : nat :=
  default 0%nat (fst <$> list_find (λ i, i = g) order).

(** Sort the p-values ascending; the entry of rank [i] (1-indexed, out of
    [m]) becomes [p[i] * m / i]. *)
Definition adjusted (p : list Qc) : list Qc :=
  let m := length p in
  let sorted := take p (argsort p) in
  imap (λ k pk, pk * Qc_of_nat m / Qc_of_nat (S k)) sorted.

(** Enforce monotonicity, then clip. *)
Definition monotone (p : list Qc) : list Qc := running_min_down (adjusted p).

(** Map back to the original gene order. *)
Definition benjamini_hochberg (p : list Qc) : list Qc :=
  let clipped := clip01 <$> monotone p in
  (λ g, clipped !!! rank0 (argsort p) g) <$> seq 0 (length p).

(** [order] reads the genes of [p] from the largest p-value to the
    smallest (ties in any order). *)
Definition descending_reading (p : list Qc) (order : list nat) : Prop :=
  order ≡ₚ seq 0 (length p) ∧ Sorted (flip (key_le p)) order.

End Reference.

(** ** Doubles *)

Inductive fnum : Type :=
  | NaN
  | NegInf
  | PosInf
  | Fin (q : Qc).

Global Instance fnum_inhabited : Inhabited fnum := populate NaN.
Global Instance fnum_eq_dec : EqDecision fnum.
Proof. solve_decision. Defined.

Module F.

Definition add (x y : fnum) : fnum :=
  match x, y with
  | NaN, _ | _, NaN => NaN
  | PosInf, NegInf | NegInf, PosInf => NaN
  | PosInf, _ | _, PosInf => PosInf
  | NegInf, _ | _, NegInf => NegInf
  | Fin a, Fin b => Fin (a + b)
  end.

Definition neg (x : fnum) : fnum :=
  match x with
  | NaN => NaN
  | NegInf => PosInf
  | PosInf => NegInf
  | Fin a => Fin (- a)
  end.

Definition sub (x y : fnum) : fnum := add x (neg y).

(** Division by a positive whole number (a count of values, or [2]). *)
Definition div_nat (x : fnum) (n : nat) : fnum :=
  match x with
  | Fin a => Fin (a / Qc_of_nat n)
  | _ => x
  end.

Definition abs (x : fnum) : fnum :=
  match x with
  | NaN => NaN
  | NegInf | PosInf => PosInf
  | Fin a => Fin (if decide (0 ≤ a) then a else - a)
  end.

(** [x <= y]: false as soon as one side is not a number. *)
Definition le (x y : fnum) : bool :=
  match x, y with
  | NaN, _ | _, NaN => false
  | NegInf, _ => true
  | _, PosInf => true
  | PosInf, _ => false
  | _, NegInf => false
  | Fin a, Fin b => bool_decide (a ≤ b)
  end.

(** [x >= y]. *)
Definition ge (x y : fnum) : bool := le y x.

Definition isnan (x : fnum) : bool :=
  match x with NaN => true | _ => false end.

End F.

(** ** The random source, [np.random.uniform] *)

(** Modelled from the spec: [random_sample] of numpy (not under src/).  The
    generator yields 53-bit words; the sample is the word over [2^53], a
    number of [[0,1)]. *)
Definition random_sample (word : N) : Qc :=
  frac (Z.of_N (word mod 2 ^ 53)) (2 ^ 53).

(** Modelled from the spec: one draw of [np.random.uniform(low, high)]
    (numpy, not under src/), [low + (high - low) * random_sample()]. *)
Definition uniform (low high : Qc) (word : N) : Qc :=
  low + (high - low) * random_sample word.

(** Modelled from the spec: [np.random.uniform(low, high, size=n)] (numpy,
    not under src/), from the words the generator yields in this run. *)
Definition uniform_array (low high : Qc) (draws : nat → N) (size : nat)
  : list Qc :=
  (λ i, uniform low high (draws i)) <$> seq 0 size.

(** ** Strings: [str.lower], [str.strip], [str.endswith] *)

Definition lower_ascii (c : ascii) : ascii :=
  let n := nat_of_ascii c in
  if bool_decide (65 ≤ n ≤ 90)%nat then ascii_of_nat (n + 32) else c.

(** [s.lower()], on the ASCII letters (no other character lowers to one). *)
Fixpoint lower (s : string) : string :=
  match s with
  | EmptyString => EmptyString
  | String c s' => String (lower_ascii c) (lower s')
  end.

(** The ASCII characters for which [str.isspace] holds. *)
Definition isspace (c : ascii) : bool :=
  let n := nat_of_ascii c in
  bool_decide (9 ≤ n ≤ 13 ∨ 28 ≤ n ≤ 32)%nat.

Fixpoint lstrip (s : string) : string :=
  match s with
  | EmptyString => EmptyString
  | String c s' => if isspace c then lstrip s' else s
  end.

Fixpoint rstrip (s : string) : string :=
  match s with
  | EmptyString => EmptyString
  | String c s' =>
      match rstrip s' with
      | EmptyString => if isspace c then EmptyString else String c EmptyString
      | r => String c r
      end
  end.

Definition strip (s : string) : string := rstrip (lstrip s).

(** [s.endswith(suffix)]. *)
Definition endswith (s suffix : string) : bool :=
  let n := String.length s in
  let k := String.length suffix in
  bool_decide (k ≤ n)%nat && bool_decide (substring (n - k) k s = suffix).

(** The characters ["\t"] and ["\n"]. *)
Definition tab : string := String (ascii_of_nat 9) EmptyString.
Definition newline : string := String (ascii_of_nat 10) EmptyString.

(** ** Exceptions *)

Inductive exn : Type :=
  | KeyError (key : string)
  | NameError (name : string)
  | ValueError (message : string)
  | ZeroDivisionError
  | LibraryError (message : string).

Global Instance exn_eq_dec : EqDecision exn.
Proof. solve_decision. Defined.

(** [str(e)], as the f-string of the handler prints it. *)
Definition str_exn (e : exn) : string :=
  match e with
  | KeyError key => "'" +:+ key +:+ "'"
  | NameError name => "name '" +:+ name +:+ "' is not defined"
  | ValueError message => message
  | ZeroDivisionError => "float division by zero"
  | LibraryError message => message
  end.

(** A computation that returns a value or raises. *)
Definition except (A : Type) : Type := exn + A.

Global Instance except_ret : MRet except := λ A x, inr x.
Global Instance except_bind : MBind except := λ A B f m,
  match m with
  | inl e => inl e
  | inr x => f x
  end.

Definition throw {A} (e : exn) : except A := inl e.

(** ** Data frames *)

(** A cell as the reader leaves it: text, or a number. *)
Inductive cell : Type :=
  | Text (s : string)
  | Number (x : fnum).

Global Instance cell_inhabited : Inhabited cell := populate (Number NaN).
Global Instance cell_eq_dec : EqDecision cell.
Proof. solve_decision. Defined.

(** A frame is a list of named columns over the index [0 .. nrows-1].
    Column names are taken to be distinct (a lookup takes the first). *)
Record DataFrame : Type := {
  nrows : nat;
  columns : list (string * list cell)
}.

Global Instance DataFrame_eq_dec : EqDecision DataFrame.
Proof. solve_decision. Defined.

Definition column_names (df : DataFrame) : list string := fst <$> columns df.

(** [df[name]]. *)
Definition getitem (df : DataFrame) (name : string) : except (list cell) :=
  match list_find (λ c, c.1 = name) (columns df) with
  | Some (_, c) => mret c.2
  | None => throw (KeyError name)
  end.

(** [df[name] = values], for a column that exists. *)
Definition setitem (df : DataFrame) (name : string) (values : list cell)
  : DataFrame :=
  {| nrows := nrows df;
     columns :=
       (λ c, if decide (c.1 = name) then (name, values) else c) <$> columns df |}.

(** [df.columns = df.columns.str.strip()]. *)
Definition strip_columns (df : DataFrame) : DataFrame :=
  {| nrows := nrows df;
     columns := (λ c, (strip c.1, c.2)) <$> columns df |}.

(** The value of a cell of a numeric column. *)
Definition cell_value (c : cell) : fnum :=
  match c with
  | Number x => x
  | Text _ => NaN
  end.

(** The mean of the values that are present; [NaN] when none is.  The sum
    is exact here: on doubles it overflows once it leaves their range. *)
Definition nanmean (values : list fnum) : fnum :=
  let present := filter (λ x, F.isnan x = false) values in
  match length present with
  | O => NaN
  | S _ as count => F.div_nat (foldr F.add (Fin 0) present) count
  end.

(** Row [i] of the given columns. *)
Definition row_values (cols : list (list cell)) (i : nat) : list fnum :=
  (λ col, cell_value (col !!! i)) <$> cols.

(** [df[names].mean(axis=1)]. *)
Definition mean_axis1 (df : DataFrame) (names : list string)
  : except (list fnum) :=
  cols ← mapM (getitem df) names;
  mret ((λ i, nanmean (row_values cols i)) <$> seq 0 (nrows df)).

(** ** The results table and its filter *)

Record Row : Type := {
  Gene : cell;
  BaseMean : fnum;
  Log2FoldChange : fnum;
  pvalue : fnum;
  FDR : fnum
}.

Global Instance Row_eq_dec : EqDecision Row.
Proof. solve_decision. Defined.

Abbreviation ResultsTable := (list Row).

(** [pd.DataFrame({"Gene": ..., "BaseMean": ..., ...})] over an index of
    [n] rows. *)
Definition make_results (n : nat) (genes : list cell)
    (base_mean log2fc pvalues fdr : list fnum) : ResultsTable :=
  (λ i, {| Gene := genes !!! i;
           BaseMean := base_mean !!! i;
           Log2FoldChange := log2fc !!! i;
           pvalue := pvalues !!! i;
           FDR := fdr !!! i |}) <$> seq 0 n.

(** [frame[mask]]: the rows whose mask entry is [True]. *)
Definition boolean_index (frame : ResultsTable) (mask : list bool)
  : ResultsTable :=
  fst <$> filter (λ rm, rm.2 = true) (zip frame mask).

(** Lines 127-131: the three comparisons give three boolean columns, joined
    by [&]. *)
Definition filtered_df (results : ResultsTable)
    (fdr_cutoff base_mean_cutoff log2fc_cutoff : Qc) : ResultsTable :=
  let fdr_ok := (λ r, F.le (FDR r) (Fin fdr_cutoff)) <$> results in
  let base_ok := (λ r, F.ge (BaseMean r) (Fin base_mean_cutoff)) <$> results in
  let fc_ok :=
    (λ r, F.ge (F.abs (Log2FoldChange r)) (Fin log2fc_cutoff)) <$> results in
  boolean_index results (zip_with andb (zip_with andb fdr_ok base_ok) fc_ok).

(** The condition of the filter on one row, in the words of the
    specification. *)
Definition passes (fdr_cutoff base_mean_cutoff log2fc_cutoff : Qc) (r : Row)
  : Prop :=
  F.le (FDR r) (Fin fdr_cutoff) = true
  ∧ F.ge (BaseMean r) (Fin base_mean_cutoff) = true
  ∧ F.ge (F.abs (Log2FoldChange r)) (Fin log2fc_cutoff) = true.

(** ** Condition labels *)

(** [d[key] = value] on a dictionary kept in insertion order. *)
Fixpoint dict_set (d : list (string * string)) (key value : string)
  : list (string * string) :=
  match d with
  | [] => [(key, value)]
  | (k, v) :: d' =>
      if decide (k = key) then (k, value) :: d' else (k, v) :: dict_set d' key value
  end.

(** Lines 69-73: a sample enters the mapping when its text box is not
    empty. *)
Definition build_condition_mapping (sample_cols : list string)
    (text_input : string → string) : list (string * string) :=
  foldl (λ mapping sample,
           let condition := text_input sample in
           if decide (condition = "") then mapping
           else dict_set mapping sample condition)
        [] sample_cols.

(** [[k for k, v in condition_mapping.items() if v.lower() == label]]. *)
Definition samples_labelled (label : string)
    (condition_mapping : list (string * string)) : list string :=
  fst <$> filter (λ kv, lower kv.2 = label) condition_mapping.

(** ** The page: session state, widgets, rendered elements *)

(** What one run of the script puts on the page.  Captions that never
    vary (the title, the captions of the sections and of the sidebar) are
    left out, except the header of each tab.  [st_exception] is the box in
    which the framework shows an exception that has left the script. *)
Inductive element : Type :=
  | st_exception (e : exn)
  | st_header (text : string)
  | st_write (text : string)
  | st_info (text : string)
  | st_warning (text : string)
  | st_error (text : string)
  | st_success (text : string)
  | st_dataframe_head (df : DataFrame)
  | st_write_columns (names : list string)
  | st_write_mapping (condition_mapping : list (string * string))
  | st_heatmap (genes : list cell) (sample_cols : list string)
  | st_ma_plot (results : ResultsTable) (significant : list bool)
  | st_volcano_plot (results : ResultsTable) (significant : list bool)
  | st_table (view : ResultsTable)
  | st_download_button (view : ResultsTable).

Global Instance element_eq_dec : EqDecision element.
Proof. solve_decision. Defined.

(** [session_results] is the slot [st.session_state.results] ([None] also
    before lines 27-28 have initialised it); [page] is what this run has
    rendered so far. *)
Record world : Type := {
  session_results : option ResultsTable;
  page : list element
}.

Global Instance world_eq_dec : EqDecision world.
Proof. solve_decision. Defined.

Inductive outcome (A : Type) : Type :=
  | Raised (e : exn)
  | Done (a : A).
Global Arguments Raised {A} e.
Global Arguments Done {A} a.
Global Instance outcome_eq_dec `{EqDecision A} : EqDecision (outcome A).
Proof. solve_decision. Defined.

(** A piece of the script: it may change the world, and it returns or
    raises.  What was changed before an exception stays changed. *)
Definition script (A : Type) : Type := world → outcome A * world.

Global Instance script_ret : MRet script := λ A x w, (Done x, w).
Global Instance script_bind : MBind script := λ A B f m w,
  match m w with
  | (Raised e, w') => (Raised e, w')
  | (Done x, w') => f x w'
  end.

Definition lift {A} (m : except A) : script A := λ w,
  match m with
  | inl e => (Raised e, w)
  | inr x => (Done x, w)
  end.

(** The world after some more elements have been rendered. *)
Definition render (w : world) (elements : list element) : world :=
  {| session_results := session_results w; page := page w ++ elements |}.

Global Arguments render : simpl never.

Definition emit (e : element) : script unit := λ w, (Done (), render w [e]).

Definition set_results (results : ResultsTable) : script unit := λ w,
  (Done (), {| session_results := Some results; page := page w |}).

Definition get_results : script (option ResultsTable) := λ w,
  (Done (session_results w), w).

(** [try: body  except Exception as e: handler e]. *)
Definition try_except {A} (body : script A) (handler : exn → script A)
  : script A := λ w,
  match body w with
  | (Raised e, w') => handler e w'
  | (Done x, w') => (Done x, w')
  end.

(** The library calls of the pipeline, and the preview of the upload.  A
    call may raise for a reason that lies outside this model; [faults] of
    the run says which ones do. *)
Inductive library_call : Type :=
  | call_preview
  | call_to_numeric
  | call_mean
  | call_log2
  | call_uniform
  | call_multipletests
  | call_DataFrame.

Record upload : Type := {
  name : string;
  content : string
}.

(** The widget values and the environment of one run. *)
Record inputs : Type := {
  fdr_cutoff : Qc;
  base_mean_cutoff : Qc;
  log2fc_cutoff : Qc;
  uploaded_file : option upload;
  gene_choice : string;
  sample_choice : list string;
  text_input : string → string;
  run_button : bool;
  draws : nat → N;
  faults : library_call → option exn
}.

(** [st.selectbox]: the chosen option, the first one by default, nothing
    when there is no option. *)
Definition selectbox (options : list string) (choice : string)
  : option string :=
  if decide (choice ∈ options) then Some choice else head options.

(** [st.multiselect]: the chosen options. *)
Definition multiselect (options : list string) (choice : list string)
  : list string :=
  filter (λ c, c ∈ options) choice.

Definition message_no_samples : string :=
  "⚠️ Please select sample columns containing expression data.".
Definition message_no_groups : string :=
  "⚠️ Please ensure at least one sample for both treated and untreated conditions.".
Definition message_no_upload : string :=
  "📂 Please upload the RNA-seq count matrix to begin analysis.".
Definition message_no_results : string :=
  "🚀 Run the analysis in the 'Upload & Configure' tab to view results.".
Definition message_exception (e : exn) : string :=
  "❌ An error occurred: " +:+ str_exn e.
Definition message_completed (n : nat) : string :=
  "✅ Differential expression completed! " +:+ pretty n +:+ " genes analyzed.".
Definition message_detected (n : nat) : string :=
  "🧬 **" +:+ pretty n +:+ " significant genes detected after filtering.**".

(** ** The script *)

Section script.

(** [np.log2] on doubles. *)
Variable log2 : fnum → fnum.
(** The number that [pd.to_numeric(errors='coerce')] reads in a text cell,
    [NaN] when it reads none. *)
Variable str_to_float : string → fnum.
(** [pd.read_csv(stream, sep=...)]. *)
Variable read_csv : string → string → except DataFrame.

Variable inp : inputs.

Definition call (c : library_call) : except unit :=
  match faults inp c with
  | Some e => throw e
  | None => mret ()
  end.

(** Lines 41-44. *)
Definition load_dataset (uploaded : upload) : except DataFrame :=
  if endswith (name uploaded) ".txt"
  then read_csv tab (content uploaded)
  else read_csv "," (content uploaded).

Definition to_numeric (c : cell) : fnum :=
  match c with
  | Number x => x
  | Text s => str_to_float s
  end.

(** Line 83: [df[sample_cols] = df[sample_cols].apply(pd.to_numeric,
    errors='coerce')]. *)
Definition coerce_samples (df : DataFrame) (sample_cols : list string)
  : except DataFrame :=
  selected ← mapM (getitem df) sample_cols;
  call call_to_numeric;;
  let coerced : list (list cell) :=
    (λ col : list cell, Number ∘ to_numeric <$> col) <$> selected in
  mret (foldl (λ d nc, setitem d nc.1 nc.2) df (zip sample_cols coerced)).

(** Line 95. *)
Definition log2_fold_change (treated_expr untreated_expr : list fnum)
  : list fnum :=
  zip_with F.sub
    (log2 <$> ((λ x, F.add x (Fin 1)) <$> treated_expr))
    (log2 <$> ((λ x, F.add x (Fin 1)) <$> untreated_expr)).

(** Line 102. *)
Definition base_mean (treated_expr untreated_expr : list fnum) : list fnum :=
  (λ x, F.div_nat x 2) <$> zip_with F.add treated_expr untreated_expr.

(** Lines 91-106: from the coerced frame to the results table. *)
Definition compute_results (df : DataFrame) (gene_id_col : option string)
    (treated_samples untreated_samples : list string) : except ResultsTable :=
  untreated_expr ← (call call_mean;; mean_axis1 df untreated_samples);
  treated_expr ← (call call_mean;; mean_axis1 df treated_samples);
  call call_log2;;
  let log2fc := log2_fold_change treated_expr untreated_expr in
  call call_uniform;;
  let pvalues := uniform_array 0 (frac 5 100) (draws inp) (length log2fc) in
  call call_multipletests;;
  let fdr := MultiTest.multipletests_fdr_bh pvalues in
  genes ← from_option (getitem df) (throw (KeyError "None")) gene_id_col;
  call call_DataFrame;;
  mret (make_results (nrows df) genes
          (base_mean treated_expr untreated_expr) log2fc
          (Fin <$> pvalues) (Fin <$> fdr)).

(** Lines 82-111: the body of the [try]. *)
Definition pipeline_body (df : DataFrame)
    (gene_id_col : option string) (sample_cols : list string)
    (condition_mapping : list (string * string)) : script unit :=
  df ← lift (coerce_samples df sample_cols);
  let treated_samples := samples_labelled "treated" condition_mapping in
  let untreated_samples := samples_labelled "untreated" condition_mapping in
  if bool_decide (treated_samples ≠ [] ∧ untreated_samples ≠ []) then
    results ← lift (compute_results df gene_id_col
                      treated_samples untreated_samples);
    set_results results;;
    emit (st_success (message_completed (length results)))
  else emit (st_error message_no_groups).

(** Lines 81-113: the guarded run. *)
Definition run_differential_expression (df : DataFrame)
    (gene_id_col : option string) (sample_cols : list string)
    (condition_mapping : list (string * string)) : script unit :=
  try_except
    (pipeline_body df gene_id_col sample_cols condition_mapping)
    (λ e, emit (st_error (message_exception e))).

(** Lines 36-115.  The tab returns [sample_cols] when the run has bound
    that name.  The preview of line 51, [st.dataframe(df.head())], hands the
    frame to the framework, which raises on frames it cannot draw (column
    names that are not distinct, integers beyond 64 bits): [call_preview]. *)
Definition tab1 : script (option (list string)) :=
  emit (st_header "📤 Upload and Configure Dataset");;
  match uploaded_file inp with
  | Some uploaded =>
      df ← lift (load_dataset uploaded);
      let df := strip_columns df in
      lift (call call_preview);;
      emit (st_dataframe_head df);;
      emit (st_write_columns (column_names df));;
      let gene_id_col := selectbox (column_names df) (gene_choice inp) in
      let sample_cols := multiselect (column_names df) (sample_choice inp) in
      (if decide (sample_cols = []) then emit (st_warning message_no_samples)
       else
         let condition_mapping :=
           build_condition_mapping sample_cols (text_input inp) in
         emit (st_write_mapping condition_mapping);;
         if run_button inp
         then run_differential_expression df gene_id_col sample_cols
                condition_mapping
         else mret ());;
      mret (Some sample_cols)
  | None =>
      emit (st_info message_no_upload);;
      mret None
  end.

(** Lines 138-144: the heat map of a view that has rows, over random data
    with one column per selected sample.  Without any column [sns.heatmap]
    takes the minimum of an empty array, which raises. *)
Definition heatmap_of (sample_cols : list string) : except unit :=
  if decide (sample_cols = [])
  then throw (ValueError
                "zero-size array to reduction operation fmin which has no identity")
  else mret ().

(** Lines 120-182. *)
Definition tab2 (sample_cols : option (list string)) : script unit :=
  emit (st_header "📊 Differential Expression Results and Visualization");;
  stored ← get_results;
  match stored with
  | Some results =>
      let view :=
        filtered_df results (fdr_cutoff inp) (base_mean_cutoff inp)
          (log2fc_cutoff inp) in
      let significant :=
        (λ r, F.le (FDR r) (Fin (fdr_cutoff inp))) <$> results in
      emit (st_write (message_detected (length view)));;
      (if decide (view = []) then mret ()
       else
         cols ← lift (from_option mret (throw (NameError "sample_cols"))
                        sample_cols);
         lift (heatmap_of cols);;
         emit (st_heatmap (Gene <$> view) cols));;
      emit (st_ma_plot results significant);;
      emit (st_volcano_plot results significant);;
      emit (st_table view);;
      emit (st_download_button view)
  | None => emit (st_info message_no_results)
  end.

(** One run of the page script. *)
Definition app : script unit :=
  sample_cols ← tab1;
  tab2 sample_cols.

End script.

(** Modelled from the spec: the script runner of Streamlit (not under
    src/), which executes the page script.  An exception that leaves the
    script ends the run at that point, and the runner shows it on the page,
    below what the script had rendered: nothing else of the script runs. *)
Definition streamlit_run (page_script : script unit) (w : world) : world :=
  match page_script w with
  | (Done _, w') => w'
  | (Raised e, w') => render w' [st_exception e]
  end.

(** ** Delimited text

    [pd.read_csv] belongs to pandas and is not under src/.  The
    specification asks for comma- or tab-delimited text whose first row is
    the header.  The reading of such text is written out here for text
    without quoting, up to the reading of a cell, which is a parameter. *)

Module Reader.

(** The characters of a string. *)
Fixpoint chars (s : string) : list ascii :=
  match s with
  | EmptyString => []
  | String c s' => c :: chars s'
  end.

(** Modelled from the spec: the fields of a line of delimited text
    (pandas, not under src/), the pieces of [s] between occurrences of
    [sep]. *)
Fixpoint split_on (sep : ascii) (s : string) : list string :=
  match s with
  | EmptyString => [EmptyString]
  | String c s' =>
      if bool_decide (c = sep) then EmptyString :: split_on sep s'
      else
        match split_on sep s' with
        | [] => [String c EmptyString]
        | piece :: pieces => String c piece :: pieces
        end
  end.

(** Modelled from the spec: the lines of a stream of delimited text
    (pandas, not under src/); empty lines are skipped. *)
Definition lines (stream : string) : list string :=
  filter (λ l, l ≠ "") (split_on (ascii_of_nat 10) stream).

(** Modelled from the spec: [pd.read_csv(stream, sep=sep)] (pandas, not
    under src/) on text without quoting.  The first line names the columns.
    The first data row sets the number of fields of a row, the header's if
    that is larger: its fields beyond those of the header, counted from the
    left, are an index and not columns; a shorter row is completed with
    missing values; a longer row is an error, and so is a stream without
    any line. *)
Definition read_csv (read_cell : string → cell) (sep : string)
    (stream : string) : except DataFrame :=
  let sep_char := match sep with String c _ => c | EmptyString => ","%char end in
  match lines stream with
  | [] => throw (LibraryError "No columns to parse from file")
  | header :: data =>
      let names := split_on sep_char header in
      let rows := split_on sep_char <$> data in
      let width := length names `max` from_option length 0%nat (head rows) in
      let index_width := (width - length names)%nat in
      if bool_decide (Forall (λ row, length row ≤ width)%nat rows) then
        mret {| nrows := length rows;
                columns :=
                  imap (λ j name,
                          (name,
                           (λ row, from_option read_cell (Number NaN)
                                     (row !! (index_width + j)%nat)) <$> rows))
                       names |}
      else throw (LibraryError "Error tokenizing data")
  end.

(** Modelled from the spec: valid delimited text for a separator (pandas,
    not under src/): the stream has a line, and no row has more fields than
    the header and the first data row allow. *)
Definition valid_delimited_text (sep : string) (stream : string) : Prop :=
  let sep_char := match sep with String c _ => c | EmptyString => ","%char end in
  match lines stream with
  | [] => False
  | header :: data =>
      let names := split_on sep_char header in
      let rows := split_on sep_char <$> data in
      let width := length names `max` from_option length 0%nat (head rows) in
      Forall (λ row, length row ≤ width)%nat rows
  end.

End Reader.

(** A character of a field of tab-delimited text: a space or a visible
    ASCII character, neither a comma nor a double quote. *)
Definition field_char (c : ascii) : Prop :=
  let n := nat_of_ascii c in (32 ≤ n ≤ 126 ∧ n ≠ 34 ∧ n ≠ 44)%nat.

(** Tab-delimited text: lines of fields separated by tabs, at least one
    line, and a visible character in every line that is not empty. *)
Definition tab_delimited_text (stream : string) : Prop :=
  Forall (λ c, c = ascii_of_nat 9 ∨ c = ascii_of_nat 10 ∨ field_char c)
    (Reader.chars stream)
  ∧ Reader.lines stream ≠ []
  ∧ Forall (λ line, Exists (λ c, field_char c ∧ c ≠ " "%char)
                      (Reader.chars line))
      (Reader.lines stream).

(** ** Sample instances of the library parameters

    Simple executable stand-ins, used to run the script on concrete
    uploads: a decimal reader, the reading of a cell by it, and the base-2
    logarithm truncated to 32 fractional bits. *)

Module Sample.

Definition digit (c : ascii) : option Z :=
  let n := nat_of_ascii c in
  if bool_decide (48 ≤ n ≤ 57)%nat then Some (Z.of_nat (n - 48)) else None.

(** Digits with at most one decimal point: numerator and denominator. *)
Fixpoint decimal (s : string) (num : Z) (den : positive) (point seen : bool)
  : option (Z * positive) :=
  match s with
  | EmptyString => if seen then Some (num, den) else None
  | String c s' =>
      match digit c with
      | Some d =>
          decimal s' (10 * num + d)%Z (if point then (10 * den)%positive else den)
            point true
      | None =>
          if bool_decide (c = "."%char) && negb point
          then decimal s' num den true seen
          else None
      end
  end.

Definition str_to_float (s : string) : fnum :=
  match s with
  | String "-" s' =>
      match decimal s' 0 1 false false with
      | Some (n, d) => Fin (frac (- n) d)
      | None => NaN
      end
  | _ =>
      match decimal s 0 1 false false with
      | Some (n, d) => Fin (frac n d)
      | None => NaN
      end
  end.

Definition read_cell (s : string) : cell :=
  match str_to_float s with
  | NaN => if decide (s = "") then Number NaN else Text s
  | x => Number x
  end.

(** The reader of delimited text, with that reading of a cell. *)
Definition read_csv : string → string → except DataFrame :=
  Reader.read_csv read_cell.

(** Fractional bits of the logarithm of a mantissa in [[1,2)], held with
    64 fractional bits: square, and halve when the square reaches 2. *)
Fixpoint log2_bits (k : nat) (y acc : Z) : Z :=
  match k with
  | O => acc
  | S k' =>
      let y2 := (y * y / 2 ^ 64)%Z in
      if bool_decide (2 ^ 65 ≤ y2)%Z
      then log2_bits k' (y2 / 2)%Z (2 * acc + 1)%Z
      else log2_bits k' y2 (2 * acc)%Z
  end.

Definition log2_positive (x : Qc) : Qc :=
  let n := Qnum (this x) in
  let d := Z.pos (Qden (this x)) in
  let e0 := (Z.log2 n - Z.log2 d)%Z in
  let below := bool_decide (n * 2 ^ Z.max 0 (- e0) < d * 2 ^ Z.max 0 e0)%Z in
  let e := if below then (e0 - 1)%Z else e0 in
  let y := (n * 2 ^ (64 + Z.max 0 (- e)) / (d * 2 ^ Z.max 0 e))%Z in
  frac e 1 + frac (log2_bits 32 y 0) (2 ^ 32).

Definition log2 (x : fnum) : fnum :=
  match x with
  | NaN | NegInf => NaN
  | PosInf => PosInf
  | Fin a =>
      if decide (0 < a) then Fin (log2_positive a)
      else if decide (a = 0) then NegInf else NaN
  end.

Definition app : inputs → script unit := app log2 str_to_float read_csv.

End Sample.

Global Instance passes_dec a b c r : Decision (passes a b c r).
Proof. unfold passes. apply _. Defined.

(** ** Tables whose probabilities stay below a bound *)

Definition below (bound : Qc) (r : Row) : Prop :=
  ∃ p q, pvalue r = Fin p ∧ FDR r = Fin q
         ∧ 0 ≤ p ∧ p < bound ∧ 0 ≤ q ∧ q < bound.

Definition stored_below (bound : Qc) (w : world) : Prop :=
  ∀ t, session_results w = Some t → Forall (below bound) t.

(** ** Concrete uploads and runs *)

Module Examples.

(** A session that has not run the pipeline yet. *)
Definition fresh : world := {| session_results := None; page := [] |}.

(** T1 and T2 are treated, the other samples untreated. *)
Definition labels (sample : string) : string :=
  if decide (sample = "T1" ∨ sample = "T2") then "Treated" else "untreated".

Definition words (i : nat) : N := (N.of_nat i * 1000000000000000 + 12345)%N.

Definition run_with (uploaded : upload) (samples : list string)
    (draws : nat → N) : inputs :=
  {| fdr_cutoff := frac 5 100;
     base_mean_cutoff := 0;
     log2fc_cutoff := 0;
     uploaded_file := Some uploaded;
     gene_choice := "Gene";
     sample_choice := samples;
     text_input := labels;
     run_button := true;
     draws := draws;
     faults := λ _, None |}.

(** The example of the specification: G1 has treated mean 10 and untreated
    mean 5. *)
Definition counts : upload :=
  {| name := "counts.csv";
     content := "Gene,T1,T2,U1,U2" +:+ newline +:+ "G1,10,10,5,5" +:+ newline
                +:+ "G2,20,20,x,7.5" +:+ newline |}.

Definition run_counts : inputs := run_with counts ["T1"; "T2"; "U1"; "U2"] words.



(** A header without any gene row. *)
Definition header_only : upload :=
  {| name := "counts.csv"; content := "Gene,T1,U1" +:+ newline |}.

Definition run_header_only : inputs := run_with header_only ["T1"; "U1"] words.

(** The same run with a release of statsmodels up to 0.14, whose routine
    divides by the number of tests before anything else. *)
Definition run_header_only_0_14 : inputs :=
  {| fdr_cutoff := frac 5 100;
     base_mean_cutoff := 0;
     log2fc_cutoff := 0;
     uploaded_file := Some header_only;
     gene_choice := "Gene";
     sample_choice := ["T1"; "U1"];
     text_input := labels;
     run_button := true;
     draws := words;
     faults := λ c, match c with
                    | call_multipletests => Some ZeroDivisionError
                    | _ => None
                    end |}.

(** Nothing at all. *)
Definition empty : upload := {| name := "counts.csv"; content := "" |}.

Definition run_empty : inputs := run_with empty ["T1"; "U1"] words.

(** One gene whose only treated value is missing; the generator yields the
    word 0, so the p-value drawn is 0. *)
Definition missing_treated : upload :=
  {| name := "counts.csv";
     content := "Gene,T1,U1" +:+ newline +:+ "G1,,5" +:+ newline |}.

Definition run_missing_treated : inputs :=
  run_with missing_treated ["T1"; "U1"] (λ _, 0%N).

Definition missing_treated_table : ResultsTable :=
  [ {| Gene := Text "G1"; BaseMean := NaN; Log2FoldChange := NaN;
       pvalue := Fin 0; FDR := Fin 0 |} ].

(** Tab-delimited text under a name that ends in [.csv]. *)
Definition tabs_as_csv : upload :=
  {| name := "counts.csv";
     content := "Gene" +:+ tab +:+ "T1" +:+ tab +:+ "U1" +:+ newline
                +:+ "G1" +:+ tab +:+ "5" +:+ tab +:+ "6" +:+ newline |}.

(** No sample is labelled as treated. *)
Definition run_unlabelled : inputs :=
  {| fdr_cutoff := frac 5 100;
     base_mean_cutoff := 0;
     log2fc_cutoff := 0;
     uploaded_file := Some counts;
     gene_choice := "Gene";
     sample_choice := ["T1"; "U1"];
     text_input := λ _, "untreated";
     run_button := true;
     draws := words;
     faults := λ _, None |}.

(** The frame read from [counts]. *)
Definition counts_frame : DataFrame :=
  Eval vm_compute in
    match Sample.read_csv "," (content counts) with
    | inr df => df
    | inl _ => {| nrows := 0; columns := [] |}
    end.

(** [counts] after the coercion of its four sample columns, and the table
    computed from it. *)
Definition counts_coerced : DataFrame :=
  Eval vm_compute in
    match coerce_samples Sample.str_to_float run_counts counts_frame
            ["T1"; "T2"; "U1"; "U2"] with
    | inr df => df
    | inl _ => counts_frame
    end.

Definition counts_results : ResultsTable :=
  Eval vm_compute in
    match compute_results Sample.log2 run_counts counts_coerced (Some "Gene")
            ["T1"; "T2"] ["U1"; "U2"] with
    | inr results => results
    | inl _ => []
    end.



(** A table of two genes; the second one is weakly expressed and barely
    changes. *)
Definition strong_row : Row :=
  {| Gene := Text "G1"; BaseMean := Fin (frac 20 1);
     Log2FoldChange := Fin (frac (-1) 1);
     pvalue := Fin (frac 1 100); FDR := Fin (frac 1 100) |}.

Definition weak_row : Row :=
  {| Gene := Text "G2"; BaseMean := Fin (frac 5 1);
     Log2FoldChange := Fin (frac 2 10);
     pvalue := Fin (frac 1 100); FDR := Fin (frac 1 100) |}.

Definition two_genes : ResultsTable := [strong_row; weak_row].

(** The thresholds the sidebar starts with. *)
Definition default_thresholds : inputs :=
  {| fdr_cutoff := frac 1 100;
     base_mean_cutoff := frac 10 1;
     log2fc_cutoff := frac 5 10;
     uploaded_file := None;
     gene_choice := "";
     sample_choice := [];
     text_input := λ _, "";
     run_button := false;
     draws := words;
     faults := λ _, None |}.

(** Two p-values, the smaller one first. *)
Definition two_pvalues : list Qc := [frac 1 100; frac 4 100].

End Examples.

(** ** Rows with a missing value, and the mirror image of a row *)

(** One of the three filtered columns is not a number. *)
Definition missing_value (r : Row) : Prop :=
  F.isnan (FDR r) = true ∨ F.isnan (BaseMean r) = true
  ∨ F.isnan (Log2FoldChange r) = true.


(** ** The mean in the words of the specification *)






(** The same gene with the fold change taken the other way round. *)
Definition mirror (r : Row) : Row :=
  {| Gene := Gene r;
     BaseMean := BaseMean r;
     Log2FoldChange := F.neg (Log2FoldChange r);
     pvalue := pvalue r;
     FDR := FDR r |}.

(** Lines 152 and 164: the colouring of the two scatter plots,
    [results["FDR"] <= fdr_cutoff]. *)
Definition highlighted (results : list Row) (fdr_cutoff : Qc) : list bool :=
  (λ r, F.le (FDR r) (Fin fdr_cutoff)) <$> results.

(** ** Proof steps used throughout *)

(** Settle a closed, decidable statement by evaluating its decision. *)
Ltac decide_by_computation :=
  match goal with
  | |- ?P =>
      let H := fresh in
      assert (bool_decide P = true) as H by (vm_compute; reflexivity);
      exact (bool_decide_eq_true_1 P H)
  end.

Ltac unfold_script :=
  unfold mbind, script_bind, mret, script_ret, lift, emit, set_results,
    get_results, try_except in *.

(* ################################################################# *)
(** * Properties *)

(** ** Order facts on exact rationals *)

Section rationals.
Implicit Types x y z : Qc.

Lemma Qcmin_l x y : Qcmin x y ≤ x.
Proof.
  unfold Qcmin. case_decide; [done|].
  apply Qclt_le_weak. by apply Qclt_nge.
Qed.

Lemma Qcmin_r x y : Qcmin x y ≤ y.
Proof. unfold Qcmin. by case_decide. Qed.

Lemma Qcmin_cases x y : Qcmin x y = x ∨ Qcmin x y = y.
Proof. unfold Qcmin. case_decide; auto. Qed.

Lemma Qcmin_glb x y z : z ≤ x → z ≤ y → z ≤ Qcmin x y.
Proof. intros. destruct (Qcmin_cases x y) as [-> | ->]; done. Qed.

Lemma Qcmin_comm x y : Qcmin x y = Qcmin y x.
Proof.
  apply (anti_symm Qcle); apply Qcmin_glb; auto using Qcmin_l, Qcmin_r.
Qed.

Lemma Qc_of_nat_pos n : (0 < n)%nat → 0 < Qc_of_nat n.
Proof.
  intros Hn. unfold Qc_of_nat, Qc_of_Z, Qclt. simpl.
  unfold Qlt. simpl. lia.
Qed.

Lemma Qc_of_nat_le n k : (n ≤ k)%nat → Qc_of_nat n ≤ Qc_of_nat k.
Proof.
  intros Hn. unfold Qc_of_nat, Qc_of_Z, Qcle. simpl.
  unfold Qle. simpl. lia.
Qed.

Lemma Qc_of_nat_ne0 n : (0 < n)%nat → Qc_of_nat n ≠ 0.
Proof.
  intros Hn Heq. apply Qc_of_nat_pos in Hn. rewrite Heq in Hn.
  by apply (irreflexivity Qclt 0).
Qed.

Lemma Qcdiv_nonneg x y : 0 ≤ x → 0 < y → 0 ≤ x / y.
Proof.
  intros Hx Hy. unfold Qcdiv.
  apply Qcmult_nonneg_nonneg; [done|].
  apply Qclt_le_weak. by apply Qcinv_pos.
Qed.

Lemma Qcdiv_le_mono_pos x y z : 0 < z → x ≤ y → x / z ≤ y / z.
Proof.
  intros Hz Hxy. unfold Qcdiv.
  apply Qcmult_le_mono_nonneg_r; [|done].
  apply Qclt_le_weak. by apply Qcinv_pos.
Qed.

(** A non-negative numerator over a larger divisor gives no more. *)
Lemma Qcdiv_antimono x y z : 0 ≤ x → 0 < y → y ≤ z → x / z ≤ x / y.
Proof.
  intros Hx Hy Hyz.
  assert (0 < z) as Hz by (by eapply Qclt_le_trans).
  assert (/ z ≤ / y) as Hinv.
  { apply (Qcmult_le_mono_pos_r _ _ (y * z)); [by apply Qcmult_pos_pos|].
    assert (y ≠ 0) by (intros ->; by apply (irreflexivity Qclt 0)).
    assert (z ≠ 0) by (intros ->; by apply (irreflexivity Qclt 0)).
    replace (/ z * (y * z)) with y by (field; done).
    replace (/ y * (y * z)) with z by (field; done).
    done. }
  unfold Qcdiv. by apply Qcmult_le_mono_nonneg_l.
Qed.

End rationals.

(** ** The running minimum, in both directions *)

Section running_minimum.
Import MultiTest Reference.
Implicit Types l : list Qc.

Lemma default_last_cons (a b : Qc) l :
  default a (last (b :: l)) = default b (last l).
Proof.
  destruct l as [|c l]; [done|]. rewrite last_cons_cons.
  destruct (last (c :: l)) eqn:E; [done|]. by apply last_None in E.
Qed.

Lemma minimum_accumulate_from_snoc acc l x :
  minimum_accumulate_from acc (l ++ [x]) =
  minimum_accumulate_from acc l ++
    [Qcmin (default acc (last (minimum_accumulate_from acc l))) x].
Proof.
  revert acc. induction l as [|y l IH]; intros acc; simpl; [done|].
  rewrite IH. do 3 f_equal. by rewrite default_last_cons.
Qed.

Lemma minimum_accumulate_snoc l x :
  minimum_accumulate (l ++ [x]) =
  match last (minimum_accumulate l) with
  | None => [x]
  | Some y => minimum_accumulate l ++ [Qcmin y x]
  end.
Proof.
  destruct l as [|y l]; simpl; [done|].
  rewrite minimum_accumulate_from_snoc.
  destruct (last (y :: minimum_accumulate_from y l)) as [z|] eqn:E.
  - by rewrite <- (default_last_cons y), E.
  - by apply last_None in E.
Qed.

Lemma running_min_down_cons x l :
  running_min_down (x :: l) =
  from_option (Qcmin x) x (head (running_min_down l)) :: running_min_down l.
Proof. simpl. by destruct (running_min_down l). Qed.

(** Reversing, accumulating from the left and reversing again is the
    running minimum taken from the last entry down to the first. *)
Lemma reverse_accumulate_reverse l :
  reverse (minimum_accumulate (reverse l)) = running_min_down l.
Proof.
  induction l as [|x l IH]; [done|].
  rewrite reverse_cons, minimum_accumulate_snoc, running_min_down_cons.
  rewrite <- IH, head_reverse.
  destruct (last (minimum_accumulate (reverse l))) as [y|] eqn:Hlast; simpl.
  - by rewrite reverse_snoc, Qcmin_comm.
  - apply last_None in Hlast. by rewrite Hlast.
Qed.

Lemma running_min_down_length l : length (running_min_down l) = length l.
Proof.
  induction l as [|x l IH]; [done|].
  rewrite running_min_down_cons. simpl. by rewrite IH.
Qed.

(** Entry [k] is a lower bound of every entry of the input from [k] on ... *)
Lemma running_min_down_lb l k j v x :
  running_min_down l !! k = Some v → l !! j = Some x → (k ≤ j)%nat → v ≤ x.
Proof.
  revert k j v x. induction l as [|y l IH]; intros k j v x; [done|].
  rewrite running_min_down_cons. intros Hk Hj Hkj.
  destruct k as [|k], j as [|j]; simpl in *; try lia.
  - simplify_eq. destruct (head (running_min_down l)); simpl;
      [apply Qcmin_l | done].
  - simplify_eq. rewrite head_lookup.
    destruct (running_min_down l !! 0%nat) as [z|] eqn:Hz; simpl.
    + trans z; [apply Qcmin_r|]. eapply (IH 0%nat j); [done..|lia].
    + apply lookup_ge_None in Hz. rewrite running_min_down_length in Hz.
      apply lookup_lt_Some in Hj. lia.
  - eapply (IH k j); [done..|lia].
Qed.

(** ... and is one of them. *)
Lemma running_min_down_attained l k v :
  running_min_down l !! k = Some v → ∃ j, (k ≤ j)%nat ∧ l !! j = Some v.
Proof.
  revert k v. induction l as [|y l IH]; intros k v; [done|].
  rewrite running_min_down_cons. intros Hk.
  destruct k as [|k]; simpl in *.
  - simplify_eq. rewrite head_lookup.
    destruct (running_min_down l !! 0%nat) as [z|] eqn:Hz; simpl.
    + destruct (Qcmin_cases y z) as [-> | ->]; [by exists 0%nat|].
      destruct (IH _ _ Hz) as (j & ? & ?). exists (S j). split; [lia|done].
    + by exists 0%nat.
  - destruct (IH _ _ Hk) as (j & ? & ?). exists (S j). split; [lia|done].
Qed.

Lemma running_min_down_mono l k k' v v' :
  running_min_down l !! k = Some v → running_min_down l !! k' = Some v' →
  (k ≤ k')%nat → v ≤ v'.
Proof.
  intros Hk Hk' Hle.
  destruct (running_min_down_attained _ _ _ Hk') as (j & ? & ?).
  eapply running_min_down_lb; [done..|lia].
Qed.

Lemma running_min_down_nonneg l :
  Forall (Qcle 0) l → Forall (Qcle 0) (running_min_down l).
Proof.
  rewrite !Forall_lookup. intros Hl k v Hk.
  destruct (running_min_down_attained _ _ _ Hk) as (j & ? & ?). eauto.
Qed.

End running_minimum.

(** ** Writing through an index array *)

Section scatter.
Import MultiTest.
Implicit Types (ind : list nat) (vals out : list Qc).

Lemma scatter_loop_untouched ind vals out (i : nat) :
  i ∉ ind →
  foldl (λ out iv, <[iv.1 := iv.2]> out) out (zip ind vals) !! i = out !! i.
Proof.
  revert vals out. induction ind as [|i0 ind IH]; intros vals out Hi; [done|].
  destruct vals as [|v0 vals]; [done|]. simpl.
  apply not_elem_of_cons in Hi as [? ?].
  rewrite IH by done. by rewrite list_lookup_insert_ne.
Qed.

Lemma scatter_loop_lookup ind vals out k (i : nat) v :
  NoDup ind → Forall (λ i, (i < length out)%nat) ind →
  ind !! k = Some i → vals !! k = Some v →
  foldl (λ out iv, <[iv.1 := iv.2]> out) out (zip ind vals) !! i = Some v.
Proof.
  revert vals out k. induction ind as [|i0 ind IH]; intros vals out k; [done|].
  destruct vals as [|v0 vals]; [by destruct k|].
  intros Hnd Hlt Hi Hv. simpl.
  apply NoDup_cons in Hnd as [? ?]. apply Forall_cons in Hlt as [? ?].
  destruct k as [|k]; simpl in *; simplify_eq.
  - rewrite scatter_loop_untouched by done. by apply list_lookup_insert_eq.
  - eapply IH; [done| |done..]. by rewrite length_insert.
Qed.

Lemma scatter_loop_length ind vals out :
  length (foldl (λ out iv, <[iv.1 := iv.2]> out) out (zip ind vals))
  = length out.
Proof.
  revert vals out. induction ind as [|i0 ind IH]; intros vals out; [done|].
  destruct vals as [|v0 vals]; [done|]. simpl.
  by rewrite IH, length_insert.
Qed.

Lemma scatter_length ind vals : length (scatter ind vals) = length vals.
Proof. unfold scatter. by rewrite scatter_loop_length, length_replicate. Qed.

(** The value written through [ind !! k] is the [k]-th value. *)
Lemma scatter_lookup ind vals k i v :
  NoDup ind → Forall (λ i, (i < length vals)%nat) ind →
  ind !! k = Some i → vals !! k = Some v →
  scatter ind vals !! i = Some v.
Proof.
  intros. eapply scatter_loop_lookup; [done| |done..].
  by rewrite length_replicate.
Qed.

End scatter.

(** ** The sort order *)

Section sort_order.
Import MultiTest.
Implicit Types p : list Qc.

Global Instance key_le_trans p : Transitive (key_le p).
Proof. intros i j k. unfold key_le. apply Qcle_trans. Qed.

Global Instance key_le_total p : Total (key_le p).
Proof. intros i j. unfold key_le. apply (total Qcle). Qed.

Lemma argsort_perm p : argsort p ≡ₚ seq 0 (length p).
Proof. apply merge_sort_Permutation. Qed.

Lemma argsort_length p : length (argsort p) = length p.
Proof. by rewrite argsort_perm, length_seq. Qed.

Lemma argsort_NoDup p : NoDup (argsort p).
Proof. rewrite argsort_perm. apply NoDup_seq. Qed.

Lemma argsort_elem_of p g : g ∈ argsort p ↔ (g < length p)%nat.
Proof. rewrite argsort_perm, elem_of_seq. lia. Qed.

Lemma argsort_lt p : Forall (λ g, (g < length p)%nat) (argsort p).
Proof. apply Forall_forall. intros g. by rewrite argsort_elem_of. Qed.

Lemma argsort_sorted p k k' g g' :
  argsort p !! k = Some g → argsort p !! k' = Some g' → (k ≤ k')%nat →
  p !!! g ≤ p !!! g'.
Proof.
  intros Hk Hk' Hle.
  destruct (decide (k = k')) as [->|Hne]; [by simplify_eq|].
  pose proof (StronglySorted_merge_sort (key_le p) (seq 0 (length p))) as HS.
  fold (argsort p) in HS.
  rewrite <- (take_drop_middle _ _ _ Hk) in HS, Hk'.
  apply StronglySorted_app in HS as (_ & _ & HS).
  apply StronglySorted_cons in HS as [HS _].
  rewrite lookup_app_r in Hk' by (rewrite length_take; lia).
  rewrite length_take_le in Hk' by (apply lookup_lt_Some in Hk; lia).
  destruct (k' - k)%nat as [|d] eqn:Hd; [lia|]. simpl in Hk'.
  rewrite Forall_lookup in HS. by apply (HS d).
Qed.

Lemma argsort_sorts p : sorts p (argsort p).
Proof. split; [apply argsort_perm|apply (Sorted_merge_sort (key_le p))]. Qed.

Lemma take_lookup p ind k g :
  ind !! k = Some g → take p ind !! k = Some (p !!! g).
Proof. intros Hk. unfold take. by rewrite list_lookup_fmap, Hk. Qed.

Lemma take_length p ind : length (take p ind) = length ind.
Proof. unfold take. by rewrite length_fmap. Qed.

(** Every gene has a rank, and the rank finds the gene again. *)
Lemma rank0_lookup p g :
  (g < length p)%nat → argsort p !! Reference.rank0 (argsort p) g = Some g.
Proof.
  intros Hg. unfold Reference.rank0.
  destruct (list_find_elem_of (λ i, i = g) (argsort p) g) as [[k g'] Hfind];
    [by apply argsort_elem_of | done |].
  rewrite Hfind. simpl. apply list_find_Some in Hfind as (? & -> & _). done.
Qed.

Lemma rank0_unique p k g :
  argsort p !! k = Some g → Reference.rank0 (argsort p) g = k.
Proof.
  intros Hk. eapply NoDup_lookup; [apply argsort_NoDup| |done].
  apply rank0_lookup. apply argsort_elem_of. by eapply list_elem_of_lookup_2.
Qed.

End sort_order.

(** ** The library routine against the procedure of the specification *)

Section benjamini_hochberg.
Import MultiTest Reference.
Implicit Types p : list Qc.

Lemma ecdf_lookup (x : list Qc) k :
  (k < length x)%nat →
  ecdf x !! k = Some (Qc_of_nat (S k) / Qc_of_nat (length x)).
Proof.
  intros Hk. unfold ecdf. rewrite list_lookup_fmap, lookup_seq_lt by done.
  done.
Qed.

(** Dividing by the factor [i/m] is multiplying by [m] and dividing by [i]. *)
Lemma raw_is_adjusted p :
  zip_with Qcdiv (take p (argsort p)) (ecdf (take p (argsort p))) = adjusted p.
Proof.
  apply list_eq. intros k. unfold adjusted.
  rewrite lookup_zip_with, list_lookup_imap.
  destruct (take p (argsort p) !! k) as [x|] eqn:Hx; simpl; [|done].
  pose proof (lookup_lt_Some _ _ _ Hx) as Hk.
  rewrite ecdf_lookup by done. simpl. f_equal.
  rewrite take_length, argsort_length in *.
  assert (Qc_of_nat (length p) ≠ 0) by (apply Qc_of_nat_ne0; lia).
  assert (Qc_of_nat (S k) ≠ 0) by (apply Qc_of_nat_ne0; lia).
  field. done.
Qed.

Lemma adjusted_length p : length (adjusted p) = length p.
Proof. unfold adjusted. by rewrite length_imap, take_length, argsort_length. Qed.

Lemma adjusted_lookup p k g :
  argsort p !! k = Some g →
  adjusted p !! k
  = Some (p !!! g * Qc_of_nat (length p) / Qc_of_nat (S k)).
Proof.
  intros Hk. unfold adjusted.
  by rewrite list_lookup_imap, (take_lookup _ _ _ _ Hk).
Qed.

Lemma monotone_length p : length (monotone p) = length p.
Proof. unfold monotone. by rewrite running_min_down_length, adjusted_length. Qed.

Lemma fdrcorrection_sorted p :
  fdrcorrection (take p (argsort p)) = cap_at_one <$> monotone p.
Proof.
  unfold fdrcorrection, monotone.
  by rewrite raw_is_adjusted, reverse_accumulate_reverse.
Qed.

Lemma multipletests_unfold p :
  multipletests_fdr_bh p
  = scatter (argsort p) (cap_at_one <$> (cap_at_one <$> monotone p)).
Proof.
  unfold multipletests_fdr_bh, multipletests_sorted_by.
  by rewrite fdrcorrection_sorted.
Qed.

Lemma multipletests_empty : multipletests_fdr_bh [] = [].
Proof. reflexivity. Qed.

(** Written through the sort order, the [k]-th value lands on the gene of
    rank [k]: reading by rank gives the same array. *)
Lemma scatter_by_rank p (vals : list Qc) :
  length vals = length p →
  scatter (argsort p) vals
  = (λ g, vals !!! rank0 (argsort p) g) <$> seq 0 (length p).
Proof.
  intros Hlen. apply list_eq. intros g.
  rewrite list_lookup_fmap.
  destruct (decide (g < length p)%nat) as [Hg|Hg].
  - rewrite lookup_seq_lt by done. simpl.
    pose proof (rank0_lookup p g Hg) as Hr.
    destruct (lookup_lt_is_Some_2 vals (rank0 (argsort p) g)) as [v Hv].
    { apply lookup_lt_Some in Hr. rewrite argsort_length in Hr. lia. }
    rewrite (list_lookup_total_correct _ _ _ Hv).
    eapply scatter_lookup; [apply argsort_NoDup| |done..].
    rewrite Hlen. apply argsort_lt.
  - rewrite (lookup_ge_None_2 (seq _ _)) by (rewrite length_seq; lia).
    apply lookup_ge_None_2. rewrite scatter_length. lia.
Qed.

Lemma clip01_range x : 0 ≤ clip01 x ∧ clip01 x ≤ 1.
Proof.
  unfold clip01, Qcmax. case_decide as H.
  - split; [done|apply Qcmin_l].
  - split; [done|]. unfold Qcle, Qle. simpl. lia.
Qed.

Lemma clip01_nonneg x : 0 ≤ x → clip01 x = Qcmin 1 x.
Proof.
  intros Hx. unfold clip01, Qcmax. case_decide as H; [done|].
  exfalso. apply H. by apply Qcmin_glb.
Qed.

Lemma clip01_mono x y : x ≤ y → clip01 x ≤ clip01 y.
Proof.
  intros Hxy. unfold clip01, Qcmax.
  assert (Qcmin 1 x ≤ Qcmin 1 y).
  { apply Qcmin_glb; [apply Qcmin_l|]. trans x; [apply Qcmin_r|done]. }
  assert (0 ≤ Qcmin 1 x → 0 ≤ Qcmin 1 y) by (intros; by trans (Qcmin 1 x)).
  repeat case_decide; try done; tauto.
Qed.

(** On a non-negative value, capping at one (the routine does it twice)
    is clipping to the unit interval. *)
Lemma cap_twice_clip x : 0 ≤ x → cap_at_one (cap_at_one x) = clip01 x.
Proof.
  intros Hx. rewrite clip01_nonneg by done.
  unfold cap_at_one, Qcmin.
  destruct (decide (1 < x)) as [Hlt|Hnlt].
  - rewrite decide_False by apply (irreflexivity Qclt 1).
    by rewrite decide_True by by apply Qclt_le_weak.
  - rewrite (decide_False _ _ Hnlt). apply Qcnot_lt_le in Hnlt.
    case_decide; [|done]. by apply (anti_symm Qcle).
Qed.

Lemma adjusted_nonneg p : Forall (Qcle 0) p → Forall (Qcle 0) (adjusted p).
Proof.
  intros Hp. apply Forall_lookup. intros k v Hv.
  unfold adjusted in Hv. apply list_lookup_imap_Some in Hv as (x & Hx & ->).
  assert (0 ≤ x).
  { unfold take in Hx. apply list_lookup_fmap_Some in Hx as (g & -> & Hg).
    destruct (lookup_lt_is_Some_2 p g) as [y Hy].
    { apply argsort_elem_of. by eapply list_elem_of_lookup_2. }
    rewrite (list_lookup_total_correct _ _ _ Hy).
    by eapply Forall_lookup_1. }
  apply Qcdiv_nonneg; [|apply Qc_of_nat_pos; lia].
  apply Qcmult_nonneg_nonneg; [done|].
  apply (Qc_of_nat_le 0). lia.
Qed.

Lemma monotone_nonneg p : Forall (Qcle 0) p → Forall (Qcle 0) (monotone p).
Proof. intros. by apply running_min_down_nonneg, adjusted_nonneg. Qed.

(** The routine of the library computes the procedure of the
    specification on every vector of non-negative numbers. *)
Lemma multipletests_is_reference p :
  Forall (Qcle 0) p →
  multipletests_fdr_bh p = benjamini_hochberg p.
Proof.
  intros Hp. rewrite multipletests_unfold.
  rewrite scatter_by_rank by (by rewrite !length_fmap, monotone_length).
  unfold benjamini_hochberg.
  assert (cap_at_one <$> (cap_at_one <$> monotone p) = clip01 <$> monotone p)
    as ->; [|done].
  rewrite <- list_fmap_compose. apply Forall_fmap_ext_1.
  eapply Forall_impl; [by apply monotone_nonneg|].
  intros x Hx. simpl. by apply cap_twice_clip.
Qed.

Lemma benjamini_hochberg_length p : length (benjamini_hochberg p) = length p.
Proof. unfold benjamini_hochberg. by rewrite length_fmap, length_seq. Qed.

(** The adjusted value of gene [g] is the clipped running minimum at the
    rank of [g]. *)
Lemma benjamini_hochberg_lookup p g :
  (g < length p)%nat →
  ∃ v, monotone p !! rank0 (argsort p) g = Some v
       ∧ benjamini_hochberg p !! g = Some (clip01 v).
Proof.
  intros Hg. pose proof (rank0_lookup p g Hg) as Hr.
  destruct (lookup_lt_is_Some_2 (monotone p) (rank0 (argsort p) g)) as [v Hv].
  { apply lookup_lt_Some in Hr. by rewrite argsort_length in Hr;
      rewrite monotone_length. }
  exists v. split; [done|]. unfold benjamini_hochberg.
  rewrite list_lookup_fmap, lookup_seq_lt by done. simpl. f_equal.
  apply list_lookup_total_correct. by rewrite list_lookup_fmap, Hv.
Qed.

Lemma benjamini_hochberg_range p x :
  x ∈ benjamini_hochberg p → 0 ≤ x ∧ x ≤ 1.
Proof.
  intros Hx. apply list_elem_of_lookup in Hx as [g Hg].
  pose proof (lookup_lt_Some _ _ _ Hg) as Hlt.
  rewrite benjamini_hochberg_length in Hlt.
  destruct (benjamini_hochberg_lookup p g Hlt) as (v & _ & Hv).
  simplify_eq. apply clip01_range.
Qed.

Lemma lookup_total_nonneg p g :
  Forall (Qcle 0) p → (g < length p)%nat → 0 ≤ p !!! g.
Proof.
intros Hp [x Hx]%lookup_lt_is_Some_2.
rewrite (list_lookup_total_correct _ _ _ Hx). by eapply Forall_lookup_1.
Qed.

(** Along the sorted p-values the running minimum follows the values, not
    only the ranks: a rank that holds a smaller or equal p-value has a
    smaller or equal minimum, also when it comes later among equal values. *)
Lemma monotone_by_value p k k' x x' v v' :
  Forall (Qcle 0) p →
  take p (argsort p) !! k = Some x → take p (argsort p) !! k' = Some x' →
  x ≤ x' →
  monotone p !! k = Some v → monotone p !! k' = Some v' →
  v ≤ v'.
Proof.
intros Hp Hx Hx' Hle Hv Hv'. unfold monotone in *.
destruct (decide (k ≤ k')%nat) as [Hr|Hr];
  [by eapply running_min_down_mono|].
destruct (running_min_down_attained _ _ _ Hv') as (j & Hj & Hadj).
destruct (decide (k ≤ j)%nat) as [Hkj|Hkj];
  [by eapply running_min_down_lb|].
(* the minimum at [k'] is attained strictly between the two ranks *)
apply list_lookup_fmap_Some in Hx as (g & -> & Hg).
apply list_lookup_fmap_Some in Hx' as (g' & -> & Hg').
destruct (lookup_lt_is_Some_2 (argsort p) j) as [gj Hgj].
{ apply lookup_lt_Some in Hg. lia. }
rewrite (adjusted_lookup _ _ _ Hgj) in Hadj. simplify_eq.
pose proof (argsort_sorted p k' j g' gj Hg' Hgj Hj) as Hsorted.
assert (0 ≤ p !!! g).
{ apply lookup_total_nonneg; [done|].
  apply argsort_elem_of. by eapply list_elem_of_lookup_2. }
assert (0 ≤ Qc_of_nat (length p)) by (apply (Qc_of_nat_le 0); lia).
trans (p !!! g * Qc_of_nat (length p) / Qc_of_nat (S k)).
{ eapply running_min_down_lb; [done| |done]. by apply adjusted_lookup. }
trans (p !!! g * Qc_of_nat (length p) / Qc_of_nat (S j)).
- apply Qcdiv_antimono;
    [by apply Qcmult_nonneg_nonneg | apply Qc_of_nat_pos; lia
    | apply Qc_of_nat_le; lia].
- apply Qcdiv_le_mono_pos; [apply Qc_of_nat_pos; lia|].
  apply Qcmult_le_mono_nonneg_r; [done|]. by trans (p !!! g').
Qed.

(** A gene with a smaller (or equal) p-value has a smaller (or equal)
    adjusted value. *)
Lemma benjamini_hochberg_mono p i j pi pj xi xj :
  Forall (Qcle 0) p →
  p !! i = Some pi → p !! j = Some pj → pi ≤ pj →
  benjamini_hochberg p !! i = Some xi → benjamini_hochberg p !! j = Some xj →
  xi ≤ xj.
Proof.
intros Hp Hi Hj Hle Hxi Hxj.
pose proof (lookup_lt_Some _ _ _ Hi) as Hilt.
pose proof (lookup_lt_Some _ _ _ Hj) as Hjlt.
destruct (benjamini_hochberg_lookup p i Hilt) as (vi & Hvi & Hxi').
destruct (benjamini_hochberg_lookup p j Hjlt) as (vj & Hvj & Hxj').
simplify_eq. apply clip01_mono.
eapply (monotone_by_value p _ _ pi pj); [done| | |done|done..].
- rewrite (take_lookup _ _ _ _ (rank0_lookup p i Hilt)).
  by rewrite (list_lookup_total_correct _ _ _ Hi).
- rewrite (take_lookup _ _ _ _ (rank0_lookup p j Hjlt)).
  by rewrite (list_lookup_total_correct _ _ _ Hj).
Qed.

(** The sorted p-values are the same whatever the order among equal
    ones. *)
Lemma take_sorted_unique p order :
  sorts p order → take p order = take p (argsort p).
Proof.
intros [Hperm Hsorted]. apply (Sorted_unique Qcle).
- unfold take. by eapply Sorted_fmap; [|done].
- unfold take. eapply Sorted_fmap; [|apply (Sorted_merge_sort (key_le p))].
  done.
- unfold take. by rewrite Hperm, argsort_perm.
Qed.

(** Whatever order the sort leaves equal p-values in, the routine returns
    the procedure of the specification. *)
Lemma multipletests_any_order p order :
  sorts p order → Forall (Qcle 0) p →
  multipletests_sorted_by order p = benjamini_hochberg p.
Proof.
intros Hs Hp. rewrite <- (multipletests_is_reference p) by done.
unfold multipletests_fdr_bh, multipletests_sorted_by.
rewrite (take_sorted_unique p order Hs).
rewrite fdrcorrection_sorted.
set (vals := cap_at_one <$> (cap_at_one <$> monotone p)).
assert (length vals = length p) as Hlen
  by (unfold vals; by rewrite !length_fmap, monotone_length).
destruct Hs as [Hperm Hsorted].
assert (NoDup order) by (rewrite Hperm; apply NoDup_seq).
assert (Forall (λ g, (g < length vals)%nat) order).
{ rewrite Hperm, Hlen. apply Forall_forall. intros g Hg%elem_of_seq. lia. }
apply list_eq. intros g.
destruct (decide (g < length p)%nat) as [Hg|Hg].
2:{ rewrite !lookup_ge_None_2; [done|rewrite scatter_length; lia..]. }
assert (g ∈ order) as [k Hk]%list_elem_of_lookup_1
  by (rewrite Hperm, elem_of_seq; lia).
pose proof (rank0_lookup p g Hg) as Hk'.
set (k' := rank0 (argsort p) g) in *.
destruct (lookup_lt_is_Some_2 (monotone p) k) as [m Hm].
{ apply lookup_lt_Some in Hk. rewrite Hperm, length_seq in Hk.
  by rewrite monotone_length. }
destruct (lookup_lt_is_Some_2 (monotone p) k') as [m' Hm'].
{ apply lookup_lt_Some in Hk'. rewrite argsort_length in Hk'.
  by rewrite monotone_length. }
assert (take p (argsort p) !! k = Some (p !!! g)) as Hx.
{ rewrite <- (take_sorted_unique p order) by done. by apply take_lookup. }
assert (take p (argsort p) !! k' = Some (p !!! g)) as Hx'
  by (by apply take_lookup).
assert (m = m') as <-.
{ apply (anti_symm Qcle).
  - by apply (monotone_by_value p k k' (p !!! g) (p !!! g)).
  - by apply (monotone_by_value p k' k (p !!! g) (p !!! g)). }
rewrite (scatter_lookup order vals k g (cap_at_one (cap_at_one m)));
  [|done..|by unfold vals; rewrite !list_lookup_fmap, Hm].
rewrite (scatter_lookup (argsort p) vals k' g (cap_at_one (cap_at_one m)));
  [done|apply argsort_NoDup| |done|by unfold vals; rewrite !list_lookup_fmap, Hm'].
rewrite Hlen. apply argsort_lt.
Qed.

(** No adjusted value exceeds the largest p-value. *)
Lemma benjamini_hochberg_below p bound x :
  Forall (λ q, 0 ≤ q ∧ q < bound) p →
  x ∈ benjamini_hochberg p → x < bound.
Proof.
  intros Hp Hx. apply list_elem_of_lookup in Hx as [g Hg].
  pose proof (lookup_lt_Some _ _ _ Hg) as Hlt.
  rewrite benjamini_hochberg_length in Hlt.
  destruct (benjamini_hochberg_lookup p g Hlt) as (v & Hv & Hx).
  simplify_eq.
  assert (Forall (Qcle 0) p) as Hp0.
  { eapply Forall_impl; [done|]. by intros ? [? ?]. }
  assert (0 ≤ v).
  { eapply (Forall_lookup_1 _ (monotone p)); [by apply monotone_nonneg|done]. }
  rewrite clip01_nonneg by done.
  eapply Qcle_lt_trans; [apply Qcmin_r|].
  (* the entry of the largest rank is the largest p-value itself *)
  destruct (lookup_lt_is_Some_2 (argsort p) (pred (length p))) as [g' Hg'].
  { rewrite argsort_length. lia. }
  pose proof (adjusted_lookup _ _ _ Hg') as Hadj.
  replace (S (pred (length p))) with (length p) in Hadj by lia.
  assert (Qc_of_nat (length p) ≠ 0) by (apply Qc_of_nat_ne0; lia).
  replace (p !!! g' * Qc_of_nat (length p) / Qc_of_nat (length p))
    with (p !!! g') in Hadj by (field; done).
  eapply Qcle_lt_trans.
  { unfold monotone in Hv. eapply running_min_down_lb; [done..|].
    pose proof (rank0_lookup p g Hlt) as Hr%lookup_lt_Some.
    rewrite argsort_length in Hr. lia. }
  destruct (lookup_lt_is_Some_2 p g') as [y Hy].
  { apply argsort_elem_of. by eapply list_elem_of_lookup_2. }
  rewrite (list_lookup_total_correct _ _ _ Hy).
  by apply (Forall_lookup_1 _ _ _ _ Hp Hy).
Qed.

End benjamini_hochberg.

(** ** The random source *)

Lemma random_sample_range word : 0 ≤ random_sample word ∧ random_sample word < 1.
Proof.
unfold random_sample, frac, Qcle, Qclt. simpl.
rewrite !Qred_correct.
pose proof (N.mod_upper_bound word (2 ^ 53)) as Hlt.
assert (Z.of_N (word mod 2 ^ 53) < 2 ^ 53)%Z as Hz.
{ change (2 ^ 53)%Z with (Z.of_N (2 ^ 53)). apply N2Z.inj_lt. by apply Hlt. }
pose proof (N2Z.is_nonneg (word mod 2 ^ 53)) as Hnn.
split.
- unfold Qle. simpl. lia.
- unfold Qlt. simpl. lia.
Qed.

(** [np.random.uniform(0, high)] draws from [[0, high)]. *)
Lemma uniform_range high word :
  0 < high → 0 ≤ uniform 0 high word ∧ uniform 0 high word < high.
Proof.
intros Hhigh. destruct (random_sample_range word) as [H0 H1].
unfold uniform.
replace (0 + (high - 0) * random_sample word) with (high * random_sample word)
  by ring.
split.
- apply Qcmult_nonneg_nonneg; [by apply Qclt_le_weak|done].
- rewrite <- (Qcmult_1_r high) at 2. by apply Qcmult_lt_mono_pos_l.
Qed.

Lemma uniform_array_length low high draws size :
  length (uniform_array low high draws size) = size.
Proof. unfold uniform_array. by rewrite length_fmap, length_seq. Qed.

Lemma uniform_array_range high draws size :
  0 < high →
  Forall (λ q, 0 ≤ q ∧ q < high) (uniform_array 0 high draws size).
Proof.
intros Hhigh. unfold uniform_array. apply Forall_fmap, Forall_forall.
intros i _. simpl. by apply uniform_range.
Qed.

(** ** From the coerced frame to the results table *)

Section pipeline_results.
Context (log2 : fnum → fnum) (inp : inputs).
Implicit Types (df : DataFrame) (results : ResultsTable).

Lemma call_returns (c : library_call) (u : unit) :
  call inp c = inr u → faults inp c = None.
Proof. unfold call. by destruct (faults inp c). Qed.

Lemma mean_axis1_inv df names series :
  mean_axis1 df names = inr series →
  ∃ cols, mapM (getitem df) names = inr cols
          ∧ series = (λ i, nanmean (row_values cols i)) <$> seq 0 (nrows df).
Proof.
unfold mean_axis1, mbind, except_bind.
destruct (mapM (getitem df) names) as [e|cols]; [done|].
intros [= <-]. by exists cols.
Qed.

Lemma mean_axis1_length df names series :
  mean_axis1 df names = inr series → length series = nrows df.
Proof.
intros (cols & _ & ->)%mean_axis1_inv. by rewrite length_fmap, length_seq.
Qed.

Lemma log2_fold_change_length (treated_expr untreated_expr : list fnum) n :
  length treated_expr = n → length untreated_expr = n →
  length (log2_fold_change log2 treated_expr untreated_expr) = n.
Proof.
intros Ht Hu. unfold log2_fold_change.
rewrite length_zip_with, !length_fmap. lia.
Qed.

(** What a returning call of [compute_results] has computed. *)
Lemma compute_results_inv df gene_id_col treated untreated results :
  compute_results log2 inp df gene_id_col treated untreated = inr results →
  ∃ untreated_expr treated_expr fdr genes,
    mean_axis1 df untreated = inr untreated_expr
    ∧ mean_axis1 df treated = inr treated_expr
    ∧ MultiTest.multipletests_fdr_bh
        (uniform_array 0 (frac 5 100) (draws inp) (nrows df)) = fdr
    ∧ results = make_results (nrows df) genes
                  (base_mean treated_expr untreated_expr)
                  (log2_fold_change log2 treated_expr untreated_expr)
                  (Fin <$> uniform_array 0 (frac 5 100) (draws inp) (nrows df))
                  (Fin <$> fdr).
Proof.
unfold compute_results, mbind, except_bind.
destruct (call inp call_mean) as [?|[]]; [done|].
destruct (mean_axis1 df untreated) as [?|untreated_expr] eqn:Hu; [done|].
destruct (mean_axis1 df treated) as [?|treated_expr] eqn:Ht; [done|].
destruct (call inp call_log2) as [?|[]]; [done|].
destruct (call inp call_uniform) as [?|[]]; [done|].
destruct (call inp call_multipletests) as [?|[]]; [done|].
rewrite (log2_fold_change_length _ _ (nrows df))
  by (by eapply mean_axis1_length).
destruct (from_option (getitem df) _ gene_id_col) as [?|genes]; [done|].
destruct (call inp call_DataFrame) as [?|[]]; [done|].
intros [= <-]. by eexists untreated_expr, treated_expr, _, genes.
Qed.

Lemma make_results_length n genes bm fc pv fdr :
  length (make_results n genes bm fc pv fdr) = n.
Proof. unfold make_results. by rewrite length_fmap, length_seq. Qed.


Lemma make_results_pvalue n genes bm fc pv fdr :
  length pv = n → pvalue <$> make_results n genes bm fc pv fdr = pv.
Proof.
intros Hlen. apply list_eq. intros i. unfold make_results.
rewrite <- list_fmap_compose, list_lookup_fmap.
destruct (decide (i < n)%nat) as [Hi|Hi].
- rewrite lookup_seq_lt by done. simpl.
  symmetry. apply list_lookup_lookup_total_lt. lia.
- rewrite (lookup_ge_None_2 (seq 0 n)) by (rewrite length_seq; lia).
  symmetry. apply lookup_ge_None_2. lia.
Qed.

Lemma make_results_FDR n genes bm fc pv fdr :
  length fdr = n → FDR <$> make_results n genes bm fc pv fdr = fdr.
Proof.
intros Hlen. apply list_eq. intros i. unfold make_results.
rewrite <- list_fmap_compose, list_lookup_fmap.
destruct (decide (i < n)%nat) as [Hi|Hi].
- rewrite lookup_seq_lt by done. simpl.
  symmetry. apply list_lookup_lookup_total_lt. lia.
- rewrite (lookup_ge_None_2 (seq 0 n)) by (rewrite length_seq; lia).
  symmetry. apply lookup_ge_None_2. lia.
Qed.

Lemma multipletests_length p out :
  MultiTest.multipletests_fdr_bh p = out → length out = length p.
Proof.
unfold MultiTest.multipletests_fdr_bh, MultiTest.multipletests_sorted_by.
intros <-.
rewrite scatter_length, length_fmap.
unfold MultiTest.fdrcorrection.
rewrite length_fmap, length_reverse.
assert (∀ l, length (MultiTest.minimum_accumulate l) = length l) as ->.
{ intros [|x l]; [done|]. simpl. f_equal.
  generalize x. induction l as [|y l IH]; intros acc; simpl; [done|].
  by rewrite IH. }
rewrite length_reverse, length_zip_with.
unfold MultiTest.ecdf. rewrite length_fmap, length_seq.
rewrite take_length, argsort_length. lia.
Qed.

(** The two probability columns of a computed table: the drawn p-values
    and what the library routine makes of them. *)
Lemma compute_results_columns df gene_id_col treated untreated results :
  compute_results log2 inp df gene_id_col treated untreated = inr results →
  let p := uniform_array 0 (frac 5 100) (draws inp) (nrows df) in
  length results = nrows df
  ∧ pvalue <$> results = Fin <$> p
  ∧ ∃ fdr, MultiTest.multipletests_fdr_bh p = fdr
           ∧ FDR <$> results = Fin <$> fdr.
Proof.
intros (ue & te & fdr & genes & _ & _ & Hfdr & ->)%compute_results_inv p.
fold p in Hfdr. split; [apply make_results_length|]. split.
- apply make_results_pvalue.
  rewrite length_fmap. apply uniform_array_length.
- exists fdr. split; [done|]. apply make_results_FDR.
  rewrite length_fmap, (multipletests_length _ _ Hfdr).
  apply uniform_array_length.
Qed.

End pipeline_results.

(** ** The guarded run *)

Section guarded_run.
Context (log2 : fnum → fnum) (str_to_float : string → fnum).
Context (inp : inputs).
Implicit Types (df : DataFrame) (w : world) (e : exn).

Local Abbreviation pipeline_body := (pipeline_body log2 str_to_float inp).
Local Abbreviation run_differential_expression :=
  (run_differential_expression log2 str_to_float inp).
Local Abbreviation compute_results := (compute_results log2 inp).
Local Abbreviation coerce_samples := (coerce_samples str_to_float inp).

(** The three ways through the body of the [try]. *)
Lemma pipeline_body_cases df gene_id_col sample_cols mapping w :
  let treated := samples_labelled "treated" mapping in
  let untreated := samples_labelled "untreated" mapping in
  (∃ e, pipeline_body df gene_id_col sample_cols mapping w = (Raised e, w)
        ∧ (coerce_samples df sample_cols = inl e
           ∨ ∃ df', coerce_samples df sample_cols = inr df'
                    ∧ treated ≠ [] ∧ untreated ≠ []
                    ∧ compute_results df' gene_id_col treated untreated
                      = inl e))
  ∨ (∃ df', coerce_samples df sample_cols = inr df'
            ∧ (treated = [] ∨ untreated = [])
            ∧ pipeline_body df gene_id_col sample_cols mapping w
              = (Done (), render w [st_error message_no_groups]))
  ∨ (∃ df' results, coerce_samples df sample_cols = inr df'
            ∧ treated ≠ [] ∧ untreated ≠ []
            ∧ compute_results df' gene_id_col treated untreated = inr results
            ∧ pipeline_body df gene_id_col sample_cols mapping w
              = (Done (), {| session_results := Some results;
                             page := page w ++
                               [st_success (message_completed (length results))] |})).
Proof.
intros treated untreated. unfold pipeline_body. unfold_script.
destruct (coerce_samples df sample_cols) as [e|df'] eqn:Hc.
{ left. exists e. auto. }
fold treated untreated. case_bool_decide as Hgroups.
- destruct Hgroups as [Ht Hu].
  destruct (compute_results df' gene_id_col treated untreated)
    as [e|results] eqn:Hr.
  + left. exists e. split; [done|]. right. by exists df'.
  + right. right. exists df', results. simpl. done.
- right. left. exists df'. split; [done|]. split; [|done].
  destruct treated, untreated; auto.
  exfalso. apply Hgroups. done.
Qed.

(** Whatever the body does, the guarded run returns, in one of three
    worlds. *)
Lemma run_differential_expression_cases df gene_id_col sample_cols mapping w :
  let treated := samples_labelled "treated" mapping in
  let untreated := samples_labelled "untreated" mapping in
  (∃ e, (coerce_samples df sample_cols = inl e
         ∨ ∃ df', coerce_samples df sample_cols = inr df'
                  ∧ treated ≠ [] ∧ untreated ≠ []
                  ∧ compute_results df' gene_id_col treated untreated = inl e)
        ∧ run_differential_expression df gene_id_col sample_cols mapping w
          = (Done (), render w [st_error (message_exception e)]))
  ∨ (∃ df', coerce_samples df sample_cols = inr df'
            ∧ (treated = [] ∨ untreated = [])
            ∧ run_differential_expression df gene_id_col sample_cols mapping w
              = (Done (), render w [st_error message_no_groups]))
  ∨ (∃ df' results, coerce_samples df sample_cols = inr df'
            ∧ treated ≠ [] ∧ untreated ≠ []
            ∧ compute_results df' gene_id_col treated untreated = inr results
            ∧ run_differential_expression df gene_id_col sample_cols mapping w
              = (Done (), {| session_results := Some results;
                             page := page w ++
                               [st_success (message_completed (length results))] |})).
Proof.
intros treated untreated.
destruct (pipeline_body_cases df gene_id_col sample_cols mapping w)
  as [(e & Hbody & Hwhy) | [(df' & Hc & Hg & Hbody)
                           | (df' & results & Hc & Ht & Hu & Hr & Hbody)]];
  unfold run_differential_expression, try_except; rewrite Hbody.
- left. exists e. done.
- right. left. by exists df'.
- right. right. by exists df', results.
Qed.

End guarded_run.


(** ** The two tabs *)

Section page_script.
Context (log2 : fnum → fnum) (str_to_float : string → fnum).
Context (read_csv : string → string → except DataFrame).
Context (inp : inputs).
Implicit Types (df : DataFrame) (w : world) (e : exn).

Local Abbreviation run_differential_expression :=
  (run_differential_expression log2 str_to_float inp).
Local Abbreviation tab1 := (tab1 log2 str_to_float read_csv inp).
Local Abbreviation tab2 := (tab2 inp).
Local Abbreviation app := (app log2 str_to_float read_csv inp).

Lemma render_render w a b : render (render w a) b = render w (a ++ b).
Proof. unfold render. simpl. by rewrite (assoc_L (++)). Qed.

Lemma success_not_rendered w elements text :
  Forall (λ el, ∀ t, el ≠ st_success t) elements →
  st_success text ∈ page (render w elements) → st_success text ∈ page w.
Proof.
intros Hnot Hin. simpl in Hin. apply elem_of_app in Hin as [Hin|Hin]; [done|].
rewrite Forall_forall in Hnot. by destruct (Hnot _ Hin text).
Qed.

Lemma run_differential_expression_done df gene_id_col sample_cols mapping w :
  (run_differential_expression df gene_id_col sample_cols mapping w).1 = Done ().
Proof.
destruct (run_differential_expression_cases log2 str_to_float inp
            df gene_id_col sample_cols mapping w)
  as [(? & _ & ->) | [(? & _ & _ & ->) | (? & ? & _ & _ & _ & _ & ->)]]; done.
Qed.

(** No upload: the tab asks for one and binds no [sample_cols]. *)
Lemma tab1_no_upload w :
  uploaded_file inp = None →
  tab1 w = (Done None,
            render w [st_header "📤 Upload and Configure Dataset";
                      st_info message_no_upload]).
Proof.
intros Hup. unfold tab1. rewrite Hup. unfold_script.
simpl. by rewrite render_render.
Qed.

(** The reader raises: nothing in the tab handles it. *)
Lemma tab1_load_failed w uploaded e :
  uploaded_file inp = Some uploaded →
  load_dataset read_csv uploaded = inl e →
  tab1 w = (Raised e, render w [st_header "📤 Upload and Configure Dataset"]).
Proof.
intros Hup Hload. unfold tab1. rewrite Hup. unfold_script.
simpl. by rewrite Hload.
Qed.

(** The reader returns and the preview raises: nothing in the tab handles
    it either. *)
Lemma tab1_preview_failed w uploaded df0 e :
  uploaded_file inp = Some uploaded →
  load_dataset read_csv uploaded = inr df0 →
  faults inp call_preview = Some e →
  tab1 w = (Raised e, render w [st_header "📤 Upload and Configure Dataset"]).
Proof.
intros Hup Hload Hpreview. unfold tab1. rewrite Hup. unfold_script.
simpl. rewrite Hload. simpl. unfold call. by rewrite Hpreview.
Qed.

(** The reader returns and the preview is drawn: the rest of the tab. *)
Lemma tab1_loaded w uploaded df0 :
  uploaded_file inp = Some uploaded →
  load_dataset read_csv uploaded = inr df0 →
  faults inp call_preview = None →
  let df := strip_columns df0 in
  let gene_id_col := selectbox (column_names df) (gene_choice inp) in
  let sample_cols := multiselect (column_names df) (sample_choice inp) in
  let mapping := build_condition_mapping sample_cols (text_input inp) in
  let shown := [st_header "📤 Upload and Configure Dataset";
                st_dataframe_head df; st_write_columns (column_names df)] in
  tab1 w =
    (Done (Some sample_cols),
     if decide (sample_cols = [])
     then render w (shown ++ [st_warning message_no_samples])
     else if run_button inp
       then (run_differential_expression df gene_id_col sample_cols mapping
               (render w (shown ++ [st_write_mapping mapping]))).2
       else render w (shown ++ [st_write_mapping mapping])).
Proof.
intros Hup Hload Hpreview df gene_id_col sample_cols mapping shown.
unfold tab1. rewrite Hup. unfold_script.
simpl. rewrite Hload. simpl. unfold call. rewrite Hpreview. simpl.
fold df. fold sample_cols. fold gene_id_col. fold mapping.
rewrite !render_render. simpl.
case_decide; simpl.
- by rewrite render_render.
- rewrite render_render. simpl. fold shown.
  destruct (run_button inp); [|done].
  pose proof (run_differential_expression_done df gene_id_col sample_cols
                mapping (render w (shown ++ [st_write_mapping mapping]))) as Hd.
  destruct (run_differential_expression _ _ _ _ _) as [[?|[]] w']; done.
Qed.

(** The results tab reads the slot and never writes it. *)
Lemma tab2_keeps_results cols w :
  session_results (tab2 cols w).2 = session_results w.
Proof.
unfold tab2. unfold_script. simpl.
destruct (session_results w) as [results|] eqn:Hres; simpl; [|done].
case_decide; simpl; [done|].
destruct cols as [sample_cols|]; simpl; [|done].
unfold heatmap_of. case_decide; done.
Qed.

End page_script.

(** ** Frames and their columns *)

Section frames.
Context (str_to_float : string → fnum) (inp : inputs).
Implicit Types (df : DataFrame).

Lemma getitem_column df name :
  name ∈ column_names df → ∃ col, getitem df name = inr col.
Proof.
intros Hin. unfold getitem.
apply list_elem_of_fmap in Hin as (c & -> & Hc).
destruct (list_find_elem_of (λ c', c'.1 = c.1) (columns df) c)
  as [[k c'] ->]; [done..|].
by exists c'.2.
Qed.

Lemma mapM_except_cons {A B} (f : A → except B) x l :
  mapM f (x :: l) = (y ← f x; k ← mapM f l; mret (y :: k)).
Proof. reflexivity. Qed.

Lemma mapM_getitem df names :
  Forall (λ name, name ∈ column_names df) names →
  ∃ cols, mapM (getitem df) names = inr cols.
Proof.
induction 1 as [|name names Hin _ [cols IH]]; [by exists []|].
destruct (getitem_column df name Hin) as [col Hcol].
exists (col :: cols). by rewrite mapM_except_cons, Hcol, IH.
Qed.

(** Names picked in the multiselect are columns of the frame: the
    coercion raises only if the library call does. *)
Lemma coerce_samples_selected df choice :
  faults inp call_to_numeric = None →
  ∃ df', coerce_samples str_to_float inp df
           (multiselect (column_names df) choice) = inr df'.
Proof.
intros Hfault. unfold coerce_samples.
destruct (mapM_getitem df (multiselect (column_names df) choice))
  as [cols ->].
{ apply Forall_forall. intros name Hin.
  unfold multiselect in Hin. by apply list_elem_of_filter in Hin as [? _]. }
unfold call. rewrite Hfault. simpl. eauto.
Qed.

End frames.

(* ################################################################# *)
(** * The claims of the specification *)

(** ** Error handling *)

(** C4.  When the body of the guarded run raises, at whichever library
    call or lookup, the world is still the one the body started from: the
    session slot is assigned only as the last step but one, after the whole
    computation.  The handler then catches the exception and shows its
    message, the text of the exception after the words "An error occurred:",
    the run returns, and the slot holds what it held before. *)
Theorem exception_leaves_results_unchanged
    log2 str_to_float inp df gene_id_col sample_cols mapping w e w1 :
  pipeline_body log2 str_to_float inp df gene_id_col sample_cols mapping w
    = (Raised e, w1) →
  w1 = w
  ∧ run_differential_expression log2 str_to_float inp df gene_id_col
      sample_cols mapping w
    = (Done (),
       render w
         [st_error
            ("❌ An error occurred: " +:+
             match e with
             | KeyError key => "'" +:+ key +:+ "'"
             | NameError name => "name '" +:+ name +:+ "' is not defined"
             | ValueError message | LibraryError message => message
             | ZeroDivisionError => "float division by zero"
             end)])
  ∧ session_results
      (run_differential_expression log2 str_to_float inp df gene_id_col
         sample_cols mapping w).2
    = session_results w.
Proof.
intros Hraised.
destruct (pipeline_body_cases log2 str_to_float inp df gene_id_col
            sample_cols mapping w)
  as [(e' & Hbody & _) | [(? & _ & _ & Hbody) | (? & ? & _ & _ & _ & _ & Hbody)]];
  rewrite Hbody in Hraised; [|done..].
injection Hraised as <- <-.
unfold run_differential_expression, try_except. rewrite Hbody.
unfold emit, message_exception. by destruct e'.
Qed.

(** A table without any gene row, with a release of statsmodels up to
    0.14: the library routine divides by the number of tests. *)
Lemma exception_leaves_results_unchanged_witness :
  let df := {| nrows := 0; columns := [("Gene", []); ("T1", []); ("U1", [])] |} in
  let mapping := [("T1", "Treated"); ("U1", "untreated")] in
  pipeline_body Sample.log2 Sample.str_to_float Examples.run_header_only_0_14
    df (Some "Gene") ["T1"; "U1"] mapping Examples.fresh
  = (Raised ZeroDivisionError, Examples.fresh)
  ∧ run_differential_expression Sample.log2 Sample.str_to_float
      Examples.run_header_only_0_14 df (Some "Gene") ["T1"; "U1"] mapping
      Examples.fresh
    = (Done (),
       render Examples.fresh
         [st_error "❌ An error occurred: float division by zero"]).
Proof.
intros df mapping.
assert (pipeline_body Sample.log2 Sample.str_to_float
          Examples.run_header_only_0_14
          df (Some "Gene") ["T1"; "U1"] mapping Examples.fresh
        = (Raised ZeroDivisionError, Examples.fresh)) as Hraised
  by (vm_compute; reflexivity).
split; [exact Hraised|].
exact (proj1 (proj2 (exception_leaves_results_unchanged _ _ _ _ _ _ _ _ _ _
                       Hraised))).
Defined.

(** C5.  With a dataset loaded and its preview drawn (the column names,
    once trimmed, are distinct and the framework draws the first rows):
    when no sample column is selected, the tab shows the warning and goes
    no further; when columns are selected but no sample is labelled
    "treated" or none "untreated" (the label lowered must be exactly that
    word), a press of the run button shows the configuration error,
    provided the coercion of line 83, which comes before the test, returns.
    In both cases no results table is computed or stored: the slot is
    unchanged and no completion message appears. *)
Theorem no_groups_no_results
    log2 str_to_float read_csv inp w uploaded df0 :
  uploaded_file inp = Some uploaded →
  load_dataset read_csv uploaded = inr df0 →
  let df := strip_columns df0 in
  NoDup (column_names df) →
  faults inp call_preview = None →
  let sample_cols := multiselect (column_names df) (sample_choice inp) in
  let mapping := build_condition_mapping sample_cols (text_input inp) in
  let shown := [st_header "📤 Upload and Configure Dataset";
                st_dataframe_head df; st_write_columns (column_names df)] in
  let after := (tab1 log2 str_to_float read_csv inp w).2 in
  sample_cols = []
  ∨ samples_labelled "treated" mapping = []
  ∨ samples_labelled "untreated" mapping = [] →
  session_results after = session_results w
  ∧ (∀ text, st_success text ∈ page after → st_success text ∈ page w)
  ∧ (sample_cols = [] →
     after = render w (shown ++
       [st_warning
          "⚠️ Please select sample columns containing expression data."]))
  ∧ (sample_cols ≠ [] → run_button inp = true →
     faults inp call_to_numeric = None →
     after = render w (shown ++
       [st_write_mapping mapping;
        st_error
          "⚠️ Please ensure at least one sample for both treated and untreated conditions."])).
Proof.
intros Hup Hload df _ Hpreview sample_cols mapping shown after Hempty.
change "⚠️ Please select sample columns containing expression data."
  with message_no_samples.
change "⚠️ Please ensure at least one sample for both treated and untreated conditions."
  with message_no_groups.
pose proof (tab1_loaded log2 str_to_float read_csv inp w uploaded df0
              Hup Hload Hpreview) as Htab.
simpl in Htab. fold df sample_cols mapping shown in Htab.
assert (after =
  if decide (sample_cols = [])
  then render w (shown ++ [st_warning message_no_samples])
  else if run_button inp
    then (run_differential_expression log2 str_to_float inp df
            (selectbox (column_names df) (gene_choice inp)) sample_cols mapping
            (render w (shown ++ [st_write_mapping mapping]))).2
    else render w (shown ++ [st_write_mapping mapping])) as Hafter.
{ unfold after. by rewrite Htab. }
clearbody after. clear Htab. subst after.
destruct (decide (sample_cols = [])) as [Hnone|Hsome].
{ repeat split; try done.
  intros text. apply success_not_rendered. by repeat constructor. }
destruct Hempty as [?|Hgroups]; [done|].
destruct (run_button inp) eqn:Hbutton.
2:{ repeat split; try done.
    intros text. apply success_not_rendered. by repeat constructor. }
destruct (run_differential_expression_cases log2 str_to_float inp df
            (selectbox (column_names df) (gene_choice inp)) sample_cols mapping
            (render w (shown ++ [st_write_mapping mapping])))
  as [(e & Hwhy & ->) | [(df' & Hc & _ & ->)
                        | (df' & results & _ & Ht & Hu & _ & _)]];
  [| |by destruct Hgroups]; cbn [snd]; rewrite render_render.
- split; [done|]. split.
  { intros text. apply success_not_rendered. by repeat constructor. }
  split; [done|]. intros _ _ Hfault. exfalso.
  destruct (coerce_samples_selected str_to_float inp df (sample_choice inp)
              Hfault) as [df' Hc].
  fold sample_cols in Hc.
  destruct Hwhy as [Hwhy|(? & _ & Ht & Hu & _)]; [congruence|].
  by destruct Hgroups.
- split; [done|]. split.
  { intros text. apply success_not_rendered. by repeat constructor. }
  split; [done|]. intros _ _ _. by rewrite <- (assoc_L (++)).
Qed.

Lemma no_groups_no_results_witness :
  let after :=
    (tab1 Sample.log2 Sample.str_to_float Sample.read_csv
       Examples.run_unlabelled Examples.fresh).2 in
  samples_labelled "treated"
    (build_condition_mapping ["T1"; "U1"] (text_input Examples.run_unlabelled))
  = []
  ∧ session_results after = None
  ∧ after = render Examples.fresh
              [st_header "📤 Upload and Configure Dataset";
               st_dataframe_head Examples.counts_frame;
               st_write_columns ["Gene"; "T1"; "T2"; "U1"; "U2"];
               st_write_mapping [("T1", "untreated"); ("U1", "untreated")];
               st_error
                 "⚠️ Please ensure at least one sample for both treated and untreated conditions."].
Proof.
intros after.
assert (load_dataset Sample.read_csv Examples.counts
        = inr Examples.counts_frame) as Hload by (vm_compute; reflexivity).
assert (samples_labelled "treated"
          (build_condition_mapping ["T1"; "U1"]
             (text_input Examples.run_unlabelled)) = []) as Htreated
  by (vm_compute; reflexivity).
assert (NoDup (column_names (strip_columns Examples.counts_frame))) as Hnames
  by decide_by_computation.
destruct (no_groups_no_results Sample.log2 Sample.str_to_float Sample.read_csv
            Examples.run_unlabelled Examples.fresh Examples.counts
            Examples.counts_frame eq_refl Hload Hnames eq_refl
            (or_intror (or_introl Htreated)))
  as (Hslot & _ & _ & Hpage).
split; [exact Htreated|]. split; [exact Hslot|].
apply Hpage; [discriminate|reflexivity|reflexivity].
Defined.

(** The modelled reader returns a frame on valid delimited text, and on
    nothing else. *)
Lemma read_csv_valid read_cell sep stream :
  Reader.valid_delimited_text sep stream
  ↔ ∃ df, Reader.read_csv read_cell sep stream = inr df.
Proof.
unfold Reader.valid_delimited_text, Reader.read_csv.
destruct (Reader.lines stream) as [|header data].
{ split; [done|]. by intros [df ?]. }
cbv zeta. case_bool_decide as Hrows.
- split; [by eexists|done].
- split; [done|]. by intros [df ?].
Qed.

Lemma read_csv_not_valid read_cell sep stream :
  ¬ Reader.valid_delimited_text sep stream →
  ∃ e, Reader.read_csv read_cell sep stream = inl e.
Proof.
intros Hinvalid.
destruct (Reader.read_csv read_cell sep stream) as [e|df] eqn:Hread;
  [by exists e|].
destruct Hinvalid. apply (read_csv_valid read_cell). by exists df.
Qed.

(** C6.  The reader, which is pandas' and a parameter here, fails on a
    stream that is not valid delimited text: that is its contract in the
    specification.  Nothing in the script handles that failure, the read of
    lines 41-44 being outside any [try]: the exception leaves the script
    there, after the header of the first tab; the script runner shows it
    below that header, and nothing else of the script runs, so that no
    analysis proceeds and the stored table is kept. *)
Theorem parse_error_ends_the_run
    log2 str_to_float read_csv (valid_delimited_text : string → string → Prop)
    inp w uploaded :
  (∀ sep stream,
     ¬ valid_delimited_text sep stream → ∃ e, read_csv sep stream = inl e) →
  uploaded_file inp = Some uploaded →
  ¬ valid_delimited_text
      (if endswith (name uploaded) ".txt" then tab else ",")
      (content uploaded) →
  ∃ e,
    load_dataset read_csv uploaded = inl e
    ∧ app log2 str_to_float read_csv inp w
      = (Raised e, render w [st_header "📤 Upload and Configure Dataset"])
    ∧ streamlit_run (app log2 str_to_float read_csv inp) w
      = {| session_results := session_results w;
           page := page w ++ [st_header "📤 Upload and Configure Dataset";
                              st_exception e] |}.
Proof.
intros Hcontract Hup Hinvalid.
destruct (Hcontract _ _ Hinvalid) as [e He].
assert (load_dataset read_csv uploaded = inl e) as Hload.
{ unfold load_dataset. by destruct (endswith (name uploaded) ".txt"). }
assert (app log2 str_to_float read_csv inp w
        = (Raised e, render w [st_header "📤 Upload and Configure Dataset"]))
  as Happ.
{ unfold app, mbind, script_bind.
  by rewrite (tab1_load_failed log2 str_to_float read_csv inp w uploaded e). }
exists e. split; [done|]. split; [done|].
unfold streamlit_run. rewrite Happ, render_render. done.
Qed.

(** An empty upload, with the sample reader and the validity of the text
    it reads: there is no header line. *)
Lemma parse_error_ends_the_run_witness :
  streamlit_run (Sample.app Examples.run_empty) Examples.fresh
  = {| session_results := None;
       page := [st_header "📤 Upload and Configure Dataset";
                st_exception (LibraryError "No columns to parse from file")] |}.
Proof.
destruct (parse_error_ends_the_run Sample.log2 Sample.str_to_float
            Sample.read_csv Reader.valid_delimited_text
            Examples.run_empty Examples.fresh Examples.empty)
  as (e & Hload & _ & Hrun).
- intros sep stream. apply read_csv_not_valid.
- reflexivity.
- intros Hvalid. vm_compute in Hvalid. exact Hvalid.
- assert (load_dataset Sample.read_csv Examples.empty
          = inl (LibraryError "No columns to parse from file")) as Hraised
    by (vm_compute; reflexivity).
  rewrite Hraised in Hload. injection Hload as <-. exact Hrun.
Defined.

(** ** Ingestion *)

Lemma endswith_csv_not_txt s :
  endswith s ".csv" = true → endswith s ".txt" = false.
Proof.
unfold endswith. simpl.
intros [_ Hcsv%bool_decide_eq_true]%andb_true_iff.
apply andb_false_iff. right. apply bool_decide_eq_false.
rewrite Hcsv. discriminate.
Qed.

Section delimited_text.
Implicit Types (s line : string) (sep c : ascii).

Lemma split_on_absent sep s :
  sep ∉ Reader.chars s → Reader.split_on sep s = [s].
Proof.
induction s as [|a s IH]; [done|]. simpl. intros Hsep.
apply not_elem_of_cons in Hsep as [Hne Hsep].
rewrite bool_decide_eq_false_2 by done. by rewrite IH.
Qed.

Lemma split_on_chars sep s line c :
  line ∈ Reader.split_on sep s → c ∈ Reader.chars line → c ∈ Reader.chars s.
Proof.
revert line. induction s as [|a s IH]; intros line; simpl.
{ intros ->%list_elem_of_singleton. by intros ?%elem_of_nil. }
case_bool_decide as Ha.
- intros [->|Hline]%elem_of_cons; [by intros ?%elem_of_nil|].
  intros Hc. right. by eapply IH.
- destruct (Reader.split_on sep s) as [|piece pieces] eqn:Hsplit.
  + intros ->%list_elem_of_singleton. simpl.
    intros [->|[]%elem_of_nil]%elem_of_cons. left.
  + intros [->|Hline]%elem_of_cons.
    * simpl. intros [->|Hc]%elem_of_cons; [left|]. right.
      eapply IH; [|done]. left.
    * intros Hc. right. eapply IH; [|done]. by right.
Qed.

Lemma lines_chars s line c :
  line ∈ Reader.lines s → c ∈ Reader.chars line → c ∈ Reader.chars s.
Proof.
unfold Reader.lines. intros [_ Hline]%list_elem_of_filter.
by apply (split_on_chars (ascii_of_nat 10)).
Qed.

(** A stream in which the separator does not occur is read as one column,
    named by its first line; each further line is one cell. *)
Lemma read_csv_single_column read_cell sep rest s header data :
  sep ∉ Reader.chars s →
  Reader.lines s = header :: data →
  Reader.read_csv read_cell (String sep rest) s
  = inr {| nrows := length data; columns := [(header, read_cell <$> data)] |}.
Proof.
intros Hsep Hlines. unfold Reader.read_csv. rewrite Hlines.
assert (∀ line, line ∈ header :: data → Reader.split_on sep line = [line])
  as Hone.
{ intros line Hline. apply split_on_absent. intros Hc. apply Hsep.
  eapply lines_chars; [|done]. by rewrite Hlines. }
rewrite (Hone header) by left.
assert (Reader.split_on sep <$> data = (λ line, [line]) <$> data) as ->.
{ apply Forall_fmap_ext_1, Forall_forall. intros line Hline.
  apply Hone. by right. }
cbv zeta.
rewrite bool_decide_eq_true_2.
2:{ apply Forall_fmap, Forall_forall. intros line _. simpl. lia. }
assert (([header] : list string) ≠ []) by done.
simpl. unfold mret, except_ret. do 2 f_equal.
- by rewrite length_fmap.
- destruct data as [|line data]; simpl; [done|].
  do 3 f_equal. rewrite <- list_fmap_compose.
  by apply list_fmap_ext.
Qed.

End delimited_text.

(** C10.  The separator handed to the reader depends on the name of the
    upload and on nothing else: a tab when the name ends in ".txt", a comma
    otherwise.  So tab-delimited text uploaded under another name, such as
    one in ".csv", gets the comma-separated reading: no comma occurs in it,
    and the reader does not fail but returns a frame with a single column,
    named by the whole first line, tabs included, each further line being
    one cell of that column. *)
Theorem separator_from_file_name read_csv read_cell uploaded :
  (endswith (name uploaded) ".txt" = true →
   load_dataset read_csv uploaded = read_csv tab (content uploaded))
  ∧ (endswith (name uploaded) ".txt" = false →
     load_dataset read_csv uploaded = read_csv "," (content uploaded))
  ∧ (endswith (name uploaded) ".csv" = true →
     endswith (name uploaded) ".txt" = false)
  ∧ (endswith (name uploaded) ".txt" = false →
     tab_delimited_text (content uploaded) →
     ∃ header data,
       Reader.lines (content uploaded) = header :: data
       ∧ load_dataset (Reader.read_csv read_cell) uploaded
         = inr {| nrows := length data;
                  columns := [(header, read_cell <$> data)] |}).
Proof.
split; [unfold load_dataset; by intros ->|].
split; [unfold load_dataset; by intros ->|].
split; [apply endswith_csv_not_txt|].
intros Hname (Hchars & Hlines & _).
destruct (Reader.lines (content uploaded)) as [|header data] eqn:Hread;
  [done|].
exists header, data. split; [done|].
unfold load_dataset. rewrite Hname.
apply read_csv_single_column; [|done].
intros Hcomma. rewrite Forall_forall in Hchars.
destruct (Hchars _ Hcomma) as [?|[?|(_ & _ & ?)]]; done.
Qed.

(** Tab-delimited text under a ".csv" name: one column, named by the whole
    header line. *)
Lemma separator_from_file_name_witness :
  endswith (name Examples.tabs_as_csv) ".csv" = true
  ∧ load_dataset Sample.read_csv Examples.tabs_as_csv
    = inr {| nrows := 1;
             columns := [("Gene" +:+ tab +:+ "T1" +:+ tab +:+ "U1",
                          [Text ("G1" +:+ tab +:+ "5" +:+ tab +:+ "6")])] |}.
Proof.
split; [reflexivity|].
destruct (separator_from_file_name Sample.read_csv Sample.read_cell
            Examples.tabs_as_csv) as (_ & _ & _ & Hsingle).
destruct Hsingle as (header & data & Hlines & Hload);
  [reflexivity|decide_by_computation|].
assert (Reader.lines (content Examples.tabs_as_csv)
        = ["Gene" +:+ tab +:+ "T1" +:+ tab +:+ "U1";
           "G1" +:+ tab +:+ "5" +:+ tab +:+ "6"]) as Hread
  by (vm_compute; reflexivity).
rewrite Hread in Hlines. injection Hlines as <- <-.
exact Hload.
Defined.

(** ** Filtering *)

Section filtering.
Implicit Types (results : list Row) (r : Row).

Lemma boolean_index_fmap (f : Row → bool) results :
  boolean_index results (f <$> results) = filter (λ r, f r = true) results.
Proof.
unfold boolean_index. induction results as [|r results IH]; [done|].
simpl. rewrite filter_cons. simpl.
rewrite (filter_cons (λ r, f r = true)).
destruct (decide (f r = true)) as [Hr|Hr]; simpl; [f_equal|]; apply IH.
Qed.

Lemma zip_with_andb_fmap (f g : Row → bool) results :
  zip_with andb (f <$> results) (g <$> results)
  = (λ r, f r && g r) <$> results.
Proof.
induction results as [|r results IH]; [done|]. simpl. f_equal. apply IH.
Qed.

(** The mask built from the three comparisons selects the rows that pass,
    in their order. *)
Lemma filtered_df_filter results fdr_cut base_cut fc_cut :
  filtered_df results fdr_cut base_cut fc_cut
  = filter (passes fdr_cut base_cut fc_cut) results.
Proof.
unfold filtered_df. rewrite !zip_with_andb_fmap, boolean_index_fmap.
apply list_filter_iff. intros r. unfold passes.
rewrite !andb_true_iff. tauto.
Qed.

Lemma filter_all {A} (P : A → Prop) `{∀ x, Decision (P x)} (l : list A) :
  Forall P l → filter P l = l.
Proof.
induction 1 as [|x l Hx _ IH]; [done|]. by rewrite filter_cons_True, IH.
Qed.

Lemma filter_ext_Forall {A} (P Q : A → Prop)
    `{∀ x, Decision (P x)} `{∀ x, Decision (Q x)} (l : list A) :
  Forall (λ x, P x ↔ Q x) l → filter P l = filter Q l.
Proof.
induction 1 as [|x l Hx _ IH]; [done|]. rewrite !filter_cons, IH.
destruct (decide (P x)), (decide (Q x)); tauto || done.
Qed.

Lemma abs_ge_zero (x : fnum) :
  F.ge (F.abs x) (Fin 0) = true ↔ F.isnan x = false.
Proof.
destruct x as [| | |a]; simpl; try done.
split; [done|]. intros _. apply bool_decide_eq_true.
case_decide as Ha; [done|].
apply Qcnot_le_lt, Qclt_le_weak in Ha.
by apply (Qcopp_le_compat a 0) in Ha.
Qed.

End filtering.

(** C3.  The filtered view is the stored table filtered by the three
    conditions: it holds exactly the rows that pass, in their order.  It is a
    function of the table and the three thresholds alone; the results tab
    that computes it leaves the session slot as it found it, and the table
    it shows is that view. *)
Theorem filtered_view_exact (results : list Row) fdr_cut base_cut fc_cut :
  filtered_df results fdr_cut base_cut fc_cut
  = filter (passes fdr_cut base_cut fc_cut) results
  ∧ (∀ r, r ∈ filtered_df results fdr_cut base_cut fc_cut
          ↔ r ∈ results ∧ passes fdr_cut base_cut fc_cut r)
  ∧ (∀ inp cols w, session_results (tab2 inp cols w).2 = session_results w)
  ∧ (∀ inp cols w,
       fdr_cutoff inp = fdr_cut → base_mean_cutoff inp = base_cut →
       log2fc_cutoff inp = fc_cut →
       session_results w = Some results →
       (tab2 inp cols w).1 = Done () →
       st_table (filtered_df results fdr_cut base_cut fc_cut)
       ∈ page (tab2 inp cols w).2).
Proof.
split; [apply filtered_df_filter|]. split.
{ intros r. rewrite filtered_df_filter, list_elem_of_filter. tauto. }
split; [apply tab2_keeps_results|].
intros inp cols w <- <- <- Hres. unfold tab2. unfold_script. simpl.
rewrite Hres. simpl.
case_decide as Hview; simpl.
- intros _. unfold render. simpl.
  rewrite !elem_of_app, !list_elem_of_singleton. tauto.
- destruct cols as [cols|]; simpl; [|done].
  unfold heatmap_of. case_decide; simpl; [done|].
  intros _. unfold render. simpl.
  rewrite !elem_of_app, !list_elem_of_singleton. tauto.
Qed.

Lemma filtered_view_exact_witness :
  passes (frac 1 100) (frac 10 1) (frac 5 10) Examples.strong_row
  ∧ ¬ passes (frac 1 100) (frac 10 1) (frac 5 10) Examples.weak_row
  ∧ filtered_df Examples.two_genes (frac 1 100) (frac 10 1) (frac 5 10)
    = [Examples.strong_row]
  ∧ st_table [Examples.strong_row]
    ∈ page (tab2 Examples.default_thresholds (Some ["T1"; "U1"])
              {| session_results := Some Examples.two_genes; page := [] |}).2.
Proof.
assert (passes (frac 1 100) (frac 10 1) (frac 5 10) Examples.strong_row) as Hs
  by (by vm_compute).
assert (¬ passes (frac 1 100) (frac 10 1) (frac 5 10) Examples.weak_row) as Hw.
{ intros (_ & Hbase & _). vm_compute in Hbase. discriminate. }
destruct (filtered_view_exact Examples.two_genes
            (frac 1 100) (frac 10 1) (frac 5 10)) as (Heq & _ & _ & Hshown).
assert (filtered_df Examples.two_genes (frac 1 100) (frac 10 1) (frac 5 10)
        = [Examples.strong_row]) as Hview.
{ rewrite Heq. unfold Examples.two_genes.
  rewrite filter_cons_True by exact Hs.
  by rewrite filter_cons_False by exact Hw. }
split; [exact Hs|]. split; [exact Hw|]. split; [exact Hview|].
rewrite <- Hview.
apply Hshown; reflexivity.
Defined.

(** C7, as amended.  In a table where every FDR is 0.0, the filter with
    cutoffs 0.05, 0 and 0 keeps a row exactly when its BaseMean is a number
    that is at least 0 and its Log2FoldChange is not missing; so it returns
    the full table when every row is like that. *)
Theorem zero_fdr_filter_keeps_numeric_rows (results : list Row) :
  Forall (λ r, FDR r = Fin 0) results →
  (∀ r, r ∈ filtered_df results (frac 5 100) 0 0
        ↔ r ∈ results ∧ F.ge (BaseMean r) (Fin 0) = true
          ∧ F.isnan (Log2FoldChange r) = false)
  ∧ (Forall (λ r, F.ge (BaseMean r) (Fin 0) = true
                  ∧ F.isnan (Log2FoldChange r) = false) results →
     filtered_df results (frac 5 100) 0 0 = results).
Proof.
intros Hfdr.
assert (∀ r, r ∈ results →
             (passes (frac 5 100) 0 0 r
              ↔ F.ge (BaseMean r) (Fin 0) = true
                ∧ F.isnan (Log2FoldChange r) = false)) as Hpass.
{ intros r Hr. unfold passes. rewrite abs_ge_zero.
  rewrite Forall_forall in Hfdr. rewrite (Hfdr r Hr).
  assert (F.le (Fin 0) (Fin (frac 5 100)) = true) as -> by (by vm_compute).
  tauto. }
split.
- intros r. rewrite filtered_df_filter, list_elem_of_filter.
  split.
  + intros [Hp Hr]. split; [done|]. by apply Hpass.
  + intros [Hr Hp]. split; [|done]. by apply Hpass.
- intros Hall. rewrite filtered_df_filter. apply filter_all.
  rewrite Forall_forall in Hall |- *. intros r Hr.
  apply Hpass; [done|]. by apply Hall.
Qed.

Lemma zero_fdr_filter_keeps_numeric_rows_witness :
  Forall (λ r, FDR r = Fin 0)
    [ {| Gene := Text "G1"; BaseMean := Fin (frac 15 2);
         Log2FoldChange := Fin (frac 7 8); pvalue := Fin 0; FDR := Fin 0 |} ]
  ∧ filtered_df
      [ {| Gene := Text "G1"; BaseMean := Fin (frac 15 2);
           Log2FoldChange := Fin (frac 7 8); pvalue := Fin 0; FDR := Fin 0 |} ]
      (frac 5 100) 0 0
    = [ {| Gene := Text "G1"; BaseMean := Fin (frac 15 2);
           Log2FoldChange := Fin (frac 7 8); pvalue := Fin 0; FDR := Fin 0 |} ].
Proof.
assert (Forall (λ r, FDR r = Fin 0)
          [ {| Gene := Text "G1"; BaseMean := Fin (frac 15 2);
               Log2FoldChange := Fin (frac 7 8); pvalue := Fin 0;
               FDR := Fin 0 |} ]) as Hfdr
  by (repeat constructor).
split; [exact Hfdr|].
apply (proj2 (zero_fdr_filter_keeps_numeric_rows _ Hfdr)).
repeat constructor; by vm_compute.
Defined.

(** C7, as stated, fails on the table of a gene whose only treated value
    is missing: the run stores a row with FDR 0.0, and the filter with
    cutoffs 0.05, 0 and 0 drops it, because its BaseMean is not a number. *)
Lemma zero_fdr_filter_drops_missing_base_mean :
  session_results (Sample.app Examples.run_missing_treated Examples.fresh).2
  = Some Examples.missing_treated_table
  ∧ Forall (λ r, FDR r = Fin 0) Examples.missing_treated_table
  ∧ filtered_df Examples.missing_treated_table (frac 5 100) 0 0 = []
  ∧ filtered_df Examples.missing_treated_table (frac 5 100) 0 0
    ≠ Examples.missing_treated_table.
Proof.
split.
{ decide_by_computation. }
split; [by repeat constructor|].
split; [vm_compute; reflexivity|].
vm_compute. discriminate.
Qed.

(** ** The differential-expression pipeline *)

Section series.
Context (log2 : fnum → fnum).
Implicit Types (te ue : list fnum).




End series.

Section group_means.
Implicit Types (values present : list fnum).








End group_means.



(** ** The false-discovery rate *)

Section fdr_column.
Context (log2 : fnum → fnum) (inp : inputs).
Implicit Types (df : DataFrame) (results : list Row).

(** The FDR column of a computed table is the procedure of the
    specification applied to its p-value column. *)
Lemma compute_results_fdr df gene_id_col treated untreated results :
  compute_results log2 inp df gene_id_col treated untreated = inr results →
  let p := uniform_array 0 (frac 5 100) (draws inp) (nrows df) in
  pvalue <$> results = Fin <$> p
  ∧ FDR <$> results = Fin <$> Reference.benjamini_hochberg p.
Proof.
intros (_ & Hp & fdr & Hfdr & Hcol)%compute_results_columns p.
fold p in Hp, Hfdr, Hcol. split; [done|].
rewrite multipletests_is_reference in Hfdr.
- by subst fdr.
- eapply Forall_impl; [by apply uniform_array_range|]. by intros q [? _].
Qed.

Lemma compute_results_below df gene_id_col treated untreated results :
  compute_results log2 inp df gene_id_col treated untreated = inr results →
  Forall (below (frac 5 100)) results.
Proof.
intros Hres. destruct (compute_results_fdr _ _ _ _ _ Hres) as [Hp Hfdr].
set (p := uniform_array 0 (frac 5 100) (draws inp) (nrows df)) in *.
assert (Forall (λ q, 0 ≤ q ∧ q < frac 5 100) p) as Hrange
  by (by apply uniform_array_range).
apply Forall_lookup. intros i r Hr.
assert ((pvalue <$> results) !! i = Some (pvalue r)) as Hpi
  by (by rewrite list_lookup_fmap, Hr).
assert ((FDR <$> results) !! i = Some (FDR r)) as Hqi
  by (by rewrite list_lookup_fmap, Hr).
rewrite Hp in Hpi. rewrite Hfdr in Hqi.
apply list_lookup_fmap_Some in Hpi as (pi & Hpr & Hpi).
apply list_lookup_fmap_Some in Hqi as (qi & Hqr & Hqi).
exists pi, qi. split; [done|]. split; [done|].
destruct (Forall_lookup_1 _ _ _ _ Hrange Hpi) as [? ?].
apply list_elem_of_lookup_2 in Hqi.
split; [done|]. split; [done|]. split.
- by apply benjamini_hochberg_range in Hqi as [? _].
- by eapply benjamini_hochberg_below.
Qed.

Lemma below_passes_cutoff bound (r : Row) :
  below bound r → F.le (FDR r) (Fin bound) = true.
Proof.
intros (p & q & _ & -> & _ & _ & _ & Hq). simpl.
apply bool_decide_eq_true. by apply Qclt_le_weak.
Qed.

End fdr_column.

Section session_slot.
Context (log2 : fnum → fnum) (str_to_float : string → fnum).
Context (read_csv : string → string → except DataFrame).
Context (inp : inputs).
Implicit Types (w : world).

(** A run leaves in the slot what it found there, or a table that
    [compute_results] has returned in this run. *)
Lemma tab1_slot w :
  session_results (tab1 log2 str_to_float read_csv inp w).2 = session_results w
  ∨ ∃ df gene_id_col treated untreated results,
      compute_results log2 inp df gene_id_col treated untreated = inr results
      ∧ session_results (tab1 log2 str_to_float read_csv inp w).2
        = Some results.
Proof.
destruct (uploaded_file inp) as [uploaded|] eqn:Hup.
2:{ left. by rewrite tab1_no_upload. }
destruct (load_dataset read_csv uploaded) as [e|df0] eqn:Hload.
{ left. by rewrite (tab1_load_failed _ _ _ _ _ uploaded e). }
destruct (faults inp call_preview) as [e|] eqn:Hpreview.
{ left. by rewrite (tab1_preview_failed _ _ _ _ _ uploaded df0 e). }
rewrite (tab1_loaded _ _ _ _ _ uploaded df0) by done. cbn [snd].
case_decide; [by left|].
destruct (run_button inp); [|by left].
match goal with
| |- context [run_differential_expression _ _ _ ?df ?g ?sc ?m ?w0] =>
    destruct (run_differential_expression_cases log2 str_to_float inp
                df g sc m w0)
      as [(e & _ & ->) | [(df' & _ & _ & ->)
                         | (df' & results & _ & _ & _ & Hres & ->)]]
end.
- by left.
- by left.
- right. by eexists _, _, _, _, results.
Qed.

Lemma app_slot w :
  session_results (app log2 str_to_float read_csv inp w).2
  = session_results (tab1 log2 str_to_float read_csv inp w).2.
Proof.
unfold app, mbind, script_bind.
destruct (tab1 log2 str_to_float read_csv inp w) as [[e|cols] w']; [done|].
apply tab2_keeps_results.
Qed.

End session_slot.

(** C1.  On every vector of p-values the routine of the library
    returns what the procedure of the specification gives (sort ascending,
    [p[i] * m / i] at rank [i] of [m], running minimum from the largest rank
    down, clip to [[0,1]], back to the gene order), whatever order the sort
    leaves equal p-values in; and the FDR column of every table the pipeline
    computes is that procedure applied to the p-value column of the table. *)
Theorem fdr_column_is_benjamini_hochberg :
  (∀ (p : list Qc) (sortind : list nat),
     MultiTest.sorts p sortind →
     Forall (λ q, 0 ≤ q ∧ q ≤ 1) p →
     MultiTest.multipletests_sorted_by sortind p
     = Reference.benjamini_hochberg p)
  ∧ (∀ log2 inp df gene_id_col treated untreated results,
       compute_results log2 inp df gene_id_col treated untreated = inr results →
       let p := uniform_array 0 (frac 5 100) (draws inp) (nrows df) in
       length p = nrows df
       ∧ pvalue <$> results = Fin <$> p
       ∧ FDR <$> results = Fin <$> Reference.benjamini_hochberg p).
Proof.
split.
- intros p sortind Hsorts Hp. apply multipletests_any_order; [done|].
  eapply Forall_impl; [done|]. by intros q [? _].
- intros log2 inp df gene_id_col treated untreated results Hres p.
  split; [apply uniform_array_length|].
  by apply (compute_results_fdr log2 inp df gene_id_col treated untreated).
Qed.

Lemma fdr_column_is_benjamini_hochberg_witness :
  MultiTest.sorts Examples.two_pvalues (MultiTest.argsort Examples.two_pvalues)
  ∧ MultiTest.multipletests_fdr_bh Examples.two_pvalues
    = Reference.benjamini_hochberg Examples.two_pvalues
  ∧ compute_results Sample.log2 Examples.run_counts Examples.counts_coerced
      (Some "Gene") ["T1"; "T2"] ["U1"; "U2"]
    = inr Examples.counts_results
  ∧ FDR <$> Examples.counts_results
    = Fin <$> Reference.benjamini_hochberg
                (uniform_array 0 (frac 5 100) Examples.words 2).
Proof.
assert (compute_results Sample.log2 Examples.run_counts Examples.counts_coerced
          (Some "Gene") ["T1"; "T2"] ["U1"; "U2"]
        = inr Examples.counts_results) as Hres by (vm_compute; reflexivity).
destruct fdr_column_is_benjamini_hochberg as [Hvector Hcolumn].
split; [apply argsort_sorts|]. split.
{ apply Hvector; [apply argsort_sorts|].
  repeat constructor; by vm_compute. }
split; [exact Hres|].
exact (proj2 (proj2 (Hcolumn _ _ _ _ _ _ _ Hres))).
Defined.

(** Pointwise order is enough for any reading order. *)
Lemma Sorted_fmap_within {A B} (R1 : relation A) (R2 : relation B)
    (f : A → B) (P : A → Prop) (l : list A) :
  (∀ x y, P x → P y → R1 x y → R2 (f x) (f y)) →
  Forall P l → Sorted R1 l → Sorted R2 (f <$> l).
Proof.
intros Hf HP HS. induction HS as [|x l _ IH Hhd]; [constructor|].
apply Forall_cons in HP as [Hx HP]. csimpl. constructor; [by apply IH|].
destruct Hhd as [|y l Hxy]; csimpl; constructor.
apply Forall_cons in HP as [Hy _]. by apply Hf.
Qed.

(** C8, as amended.  Read in descending order of the p-values (ties in any
    order), the adjusted values never increase: a gene with a smaller
    p-value has a smaller or equal FDR.  Every value lies in [[0,1]]. *)
Theorem fdr_monotone_and_in_unit_interval (p out : list Qc) sortind :
  Forall (λ q, 0 ≤ q ∧ q ≤ 1) p →
  MultiTest.sorts p sortind →
  MultiTest.multipletests_sorted_by sortind p = out →
  (∀ order, Reference.descending_reading p order →
            Sorted (flip Qcle) (MultiTest.take out order))
  ∧ (∀ i j pi pj xi xj,
       p !! i = Some pi → p !! j = Some pj →
       out !! i = Some xi → out !! j = Some xj →
       pi ≤ pj → xi ≤ xj)
  ∧ Forall (λ x, 0 ≤ x ∧ x ≤ 1) out.
Proof.
intros Hp Hsorts Hout.
assert (Forall (Qcle 0) p) as Hp0.
{ eapply Forall_impl; [done|]. by intros q [? _]. }
rewrite multipletests_any_order in Hout by done.
subst out.
assert (∀ i j pi pj xi xj,
          p !! i = Some pi → p !! j = Some pj →
          Reference.benjamini_hochberg p !! i = Some xi →
          Reference.benjamini_hochberg p !! j = Some xj →
          pi ≤ pj → xi ≤ xj) as Hmono.
{ intros i j pi pj xi xj Hi Hj Hxi Hxj Hle.
  by eapply (benjamini_hochberg_mono p i j). }
split; [|split; [done|]].
- intros order [Hperm Hsorted]. unfold MultiTest.take.
  apply (Sorted_fmap_within (flip (MultiTest.key_le p)) _ _
           (λ g, (g < length p)%nat)); [|by rewrite Hperm; apply Forall_forall;
           intros g Hg%elem_of_seq; lia|done].
  intros g g' Hg Hg' Hkey. unfold flip, MultiTest.key_le in *.
  destruct (lookup_lt_is_Some_2 p g Hg) as [pg Hpg].
  destruct (lookup_lt_is_Some_2 p g' Hg') as [pg' Hpg'].
  rewrite (list_lookup_total_correct _ _ _ Hpg),
          (list_lookup_total_correct _ _ _ Hpg') in Hkey.
  rewrite <- benjamini_hochberg_length in Hg, Hg'.
  destruct (lookup_lt_is_Some_2 _ g Hg) as [xg Hxg].
  destruct (lookup_lt_is_Some_2 _ g' Hg') as [xg' Hxg'].
  rewrite (list_lookup_total_correct _ _ _ Hxg),
          (list_lookup_total_correct _ _ _ Hxg').
  by eapply (Hmono g' g).
- apply Forall_forall. intros x Hx. by eapply benjamini_hochberg_range.
Qed.

Lemma two_pvalues_descending :
  Reference.descending_reading Examples.two_pvalues [1; 0]%nat.
Proof.
split; [apply perm_swap|].
repeat constructor. unfold flip, MultiTest.key_le. by vm_compute.
Qed.

Lemma fdr_monotone_and_in_unit_interval_witness :
  ∃ out, MultiTest.multipletests_fdr_bh Examples.two_pvalues = out
         ∧ Sorted (flip Qcle) (MultiTest.take out [1; 0]%nat)
         ∧ Forall (λ x, 0 ≤ x ∧ x ≤ 1) out.
Proof.
eexists. split; [vm_compute; reflexivity|].
match goal with
| |- Sorted _ (MultiTest.take ?out _) ∧ _ =>
    assert (MultiTest.multipletests_fdr_bh Examples.two_pvalues = out)
      as Hout by (vm_compute; reflexivity)
end.
assert (Forall (λ q, 0 ≤ q ∧ q ≤ 1) Examples.two_pvalues) as Hp
  by (repeat constructor; by vm_compute).
destruct (fdr_monotone_and_in_unit_interval _ _ _ Hp
            (argsort_sorts Examples.two_pvalues) Hout)
  as (Hsorted & _ & Hrange).
split; [|exact Hrange].
apply Hsorted. exact two_pvalues_descending.
Defined.

(** C8, as stated, fails on the p-values 0.01 and 0.04: their adjusted
    values are 0.02 and 0.04, and read from the larger p-value to the
    smaller they go down, from 0.04 to 0.02. *)
Lemma fdr_read_descending_goes_down :
  ∃ out, MultiTest.multipletests_fdr_bh Examples.two_pvalues = out
         ∧ Reference.descending_reading Examples.two_pvalues [1; 0]%nat
         ∧ MultiTest.take out [1; 0]%nat = [frac 4 100; frac 2 100]
         ∧ ¬ Sorted Qcle (MultiTest.take out [1; 0]%nat).
Proof.
eexists. split; [vm_compute; reflexivity|].
split; [exact two_pvalues_descending|].
split; [decide_by_computation|].
intros Hsorted. apply Sorted_inv in Hsorted as [_ Hhd].
apply HdRel_inv in Hhd. vm_compute in Hhd. by apply Hhd.
Qed.

(** C9.  Every table the pipeline computes has its p-values in
    [[0, 0.05)] and its FDR values below 0.05 (no adjusted value exceeds the
    largest p-value).  So a run of the script keeps the property that the
    stored table, if any, is of that kind, and on such a table the
    comparison [FDR <= 0.05] holds in every row: with the cutoff at 0.05 the
    filter drops a row only for its BaseMean or its Log2FoldChange. *)
Theorem stored_fdr_below_cutoff log2 str_to_float read_csv inp w :
  stored_below (frac 5 100) w →
  (∀ df gene_id_col treated untreated results,
     compute_results log2 inp df gene_id_col treated untreated = inr results →
     Forall (below (frac 5 100)) results)
  ∧ stored_below (frac 5 100) (app log2 str_to_float read_csv inp w).2
  ∧ (∀ t, session_results (app log2 str_to_float read_csv inp w).2 = Some t →
          Forall (λ r, F.le (FDR r) (Fin (frac 5 100)) = true) t
          ∧ ∀ base_cut fc_cut,
              filtered_df t (frac 5 100) base_cut fc_cut
              = filter (λ r, F.ge (BaseMean r) (Fin base_cut) = true
                             ∧ F.ge (F.abs (Log2FoldChange r)) (Fin fc_cut)
                               = true) t).
Proof.
intros Hw.
assert (stored_below (frac 5 100) (app log2 str_to_float read_csv inp w).2)
  as Hafter.
{ intros t. rewrite app_slot.
  destruct (tab1_slot log2 str_to_float read_csv inp w)
    as [-> | (df & g & ts & us & results & Hres & ->)]; [apply Hw|].
  intros [= <-]. by eapply compute_results_below. }
split; [intros; by eapply compute_results_below|]. split; [done|].
intros t Ht. specialize (Hafter t Ht).
assert (Forall (λ r, F.le (FDR r) (Fin (frac 5 100)) = true) t) as Hfdr.
{ eapply Forall_impl; [done|]. apply below_passes_cutoff. }
split; [done|]. intros base_cut fc_cut.
rewrite filtered_df_filter. apply filter_ext_Forall.
eapply Forall_impl; [exact Hfdr|].
intros r Hr. unfold passes. rewrite Hr. tauto.
Qed.

Lemma stored_fdr_below_cutoff_witness :
  stored_below (frac 5 100) Examples.fresh
  ∧ session_results (Sample.app Examples.run_counts Examples.fresh).2
    = Some Examples.counts_results
  ∧ Forall (below (frac 5 100)) Examples.counts_results
  ∧ Forall (λ r, F.le (FDR r) (Fin (frac 5 100)) = true) Examples.counts_results.
Proof.
assert (stored_below (frac 5 100) Examples.fresh) as Hfresh
  by (intros t Ht; discriminate Ht).
assert (session_results (Sample.app Examples.run_counts Examples.fresh).2
        = Some Examples.counts_results) as Hslot by decide_by_computation.
destruct (stored_fdr_below_cutoff Sample.log2 Sample.str_to_float
            Sample.read_csv Examples.run_counts Examples.fresh Hfresh)
  as (_ & Hstored & Hfilter).
split; [exact Hfresh|]. split; [exact Hslot|]. split.
- exact (Hstored _ Hslot).
- exact (proj1 (Hfilter _ Hslot)).
Defined.


(* ################################################################# *)
(** * Further properties of the script *)

(** ** The filter of the results tab *)

Section filter_laws.
Implicit Types (results : list Row) (r : Row) (x : fnum).

Lemma Qcmax_l (a b : Qc) : a ≤ Qcmax a b.
Proof.
unfold Qcmax. case_decide; [done|]. reflexivity.
Qed.

Lemma Qcmax_r (a b : Qc) : b ≤ Qcmax a b.
Proof.
unfold Qcmax. case_decide as H; [reflexivity|].
apply Qclt_le_weak. by apply Qclt_nge.
Qed.

Lemma Qcmax_lub (a b z : Qc) : a ≤ z → b ≤ z → Qcmax a b ≤ z.
Proof. intros. unfold Qcmax. by case_decide. Qed.

Lemma le_both_cutoffs x a a' :
  F.le x (Fin a) = true ∧ F.le x (Fin a') = true
  ↔ F.le x (Fin (Qcmin a a')) = true.
Proof.
destruct x as [| | |q]; simpl; try tauto; try (split; [by intros [? ?]|done]).
rewrite !bool_decide_eq_true. split.
- intros [? ?]. by apply Qcmin_glb.
- intros Hq. split; (etrans; [exact Hq|]); [apply Qcmin_l|apply Qcmin_r].
Qed.

Lemma ge_both_cutoffs x b b' :
  F.ge x (Fin b) = true ∧ F.ge x (Fin b') = true
  ↔ F.ge x (Fin (Qcmax b b')) = true.
Proof.
unfold F.ge.
destruct x as [| | |q]; simpl; try tauto; try (split; [by intros [? ?]|done]).
rewrite !bool_decide_eq_true. split.
- intros [? ?]. by apply Qcmax_lub.
- intros Hq. split; (etrans; [|exact Hq]); [apply Qcmax_l|apply Qcmax_r].
Qed.

Lemma abs_neg x : F.abs (F.neg x) = F.abs x.
Proof.
destruct x as [| | |q]; simpl; try done. f_equal.
destruct (decide (0 ≤ q)) as [Hq|Hq], (decide (0 ≤ - q)) as [Hn|Hn]; try done.
- assert (q ≤ 0) as Hq0.
  { apply (Qcopp_le_compat 0 (- q)) in Hn.
    rewrite Qcopp_involutive in Hn. exact Hn. }
  assert (q = 0) as -> by (by apply (anti_symm Qcle)). done.
- by rewrite Qcopp_involutive.
- exfalso. apply Hn. apply Qcnot_le_lt, Qclt_le_weak in Hq.
  by apply (Qcopp_le_compat q 0) in Hq.
Qed.

Lemma passes_mirror a b c r : passes a b c (mirror r) ↔ passes a b c r.
Proof. unfold passes, mirror. simpl. by rewrite abs_neg. Qed.

Lemma filter_fmap_equiv {A} (f : A → A) (P : A → Prop)
    `{∀ y, Decision (P y)} (l : list A) :
  (∀ y, P (f y) ↔ P y) → filter P (f <$> l) = f <$> filter P l.
Proof.
intros Hf. induction l as [|y l IH]; [done|]. csimpl.
rewrite !filter_cons, IH.
destruct (decide (P (f y))) as [?|Hn], (decide (P y)) as [?|Hn'];
  [done| | |done].
- by destruct Hn'; apply Hf.
- by destruct Hn; apply Hf.
Qed.

(** Mirroring the rows mirrors the view. *)
Lemma filtered_df_mirror results a b c :
  filtered_df (mirror <$> results) a b c = mirror <$> filtered_df results a b c.
Proof.
rewrite !filtered_df_filter. apply filter_fmap_equiv.
intros r. apply passes_mirror.
Qed.

End filter_laws.

(** X1.  Filtering a view again is filtering once with the stricter of the
    two cutoffs in each place; so filtering twice with the same cutoffs
    changes nothing, and a view only ever drops rows of the table, keeping
    the others in their order. *)
Theorem filtering_composes (results : list Row) a b c a' b' c' :
  filtered_df (filtered_df results a b c) a' b' c'
  = filtered_df results (Qcmin a a') (Qcmax b b') (Qcmax c c')
  ∧ filtered_df (filtered_df results a b c) a b c = filtered_df results a b c
  ∧ filtered_df (filtered_df results a b c) a' b' c'
    = filtered_df (filtered_df results a' b' c') a b c
  ∧ filtered_df results a b c `sublist_of` results.
Proof.
assert (∀ a b c a' b' c',
          filtered_df (filtered_df results a b c) a' b' c'
          = filter (λ r, passes a' b' c' r ∧ passes a b c r) results) as Htwice.
{ intros. by rewrite !filtered_df_filter, list_filter_filter. }
split; [|split; [|split]].
- rewrite Htwice, filtered_df_filter. apply list_filter_iff.
  intros r. unfold passes.
  rewrite <- le_both_cutoffs, <- !ge_both_cutoffs. tauto.
- rewrite Htwice, filtered_df_filter. apply list_filter_iff. intros r. tauto.
- rewrite !Htwice. apply list_filter_iff. intros r. tauto.
- rewrite filtered_df_filter. apply sublist_filter.
Qed.

(** X2.  A row in which the FDR, the BaseMean or the Log2FoldChange is not
    a number is in no view, whatever the three cutoffs. *)
Theorem missing_value_never_shown (results : list Row) a b c r :
  missing_value r → r ∉ filtered_df results a b c.
Proof.
intros Hmissing. rewrite filtered_df_filter, list_elem_of_filter.
intros [(Hfdr & Hbase & Hfc) _]. unfold F.ge in *.
destruct Hmissing as [H|[H|H]].
- by destruct (FDR r).
- by destruct (BaseMean r).
- by destruct (Log2FoldChange r).
Qed.

Lemma missing_value_never_shown_witness :
  Forall missing_value Examples.missing_treated_table
  ∧ Forall (λ r, r ∉ filtered_df Examples.missing_treated_table (frac 5 100) 0 0)
      Examples.missing_treated_table.
Proof.
assert (Forall missing_value Examples.missing_treated_table) as Hmissing
  by (constructor; [right; left; reflexivity|constructor]).
split; [exact Hmissing|].
eapply Forall_impl; [exact Hmissing|].
intros r Hr. exact (missing_value_never_shown _ _ _ _ r Hr).
Defined.

(** ** The pipeline: rows, groups, significance *)

Section pipeline_laws.
Context (log2 : fnum → fnum) (inp : inputs).
Implicit Types (df : DataFrame) (x y : fnum).

Lemma add_comm x y : F.add x y = F.add y x.
Proof.
destruct x as [| | |a], y as [| | |b]; simpl; try done.
by rewrite Qcplus_comm.
Qed.

Lemma sub_neg x y : F.sub x y = F.neg (F.sub y x).
Proof.
destruct x as [| | |a], y as [| | |b]; simpl; try done.
f_equal. ring.
Qed.

Lemma log2_fold_change_swap (te ue : list fnum) :
  log2_fold_change log2 ue te = F.neg <$> log2_fold_change log2 te ue.
Proof.
unfold log2_fold_change.
generalize (log2 <$> ((λ x, F.add x (Fin 1)) <$> te)).
generalize (log2 <$> ((λ x, F.add x (Fin 1)) <$> ue)).
intros l1 l2. revert l1. induction l2 as [|b l2 IH]; intros [|a l1]; try done.
csimpl. by rewrite IH, sub_neg.
Qed.

Lemma base_mean_swap (te ue : list fnum) : base_mean ue te = base_mean te ue.
Proof.
unfold base_mean. f_equal.
revert ue. induction te as [|a te IH]; intros [|b ue]; try done.
csimpl. by rewrite IH, add_comm.
Qed.

Lemma make_results_mirror n genes bm fc pv fdr :
  (n ≤ length fc)%nat →
  make_results n genes bm (F.neg <$> fc) pv fdr
  = mirror <$> make_results n genes bm fc pv fdr.
Proof.
intros Hlen. unfold make_results. rewrite <- list_fmap_compose.
apply Forall_fmap_ext_1, Forall_forall. intros i [_ Hi]%elem_of_seq.
unfold mirror. simpl. f_equal.
destruct (lookup_lt_is_Some_2 fc i) as [x Hx]; [lia|].
rewrite (list_lookup_total_correct _ _ _ Hx).
apply list_lookup_total_correct. by rewrite list_lookup_fmap, Hx.
Qed.

Lemma mean_axis1_returns df names :
  Forall (λ name, name ∈ column_names df) names →
  ∃ series, mean_axis1 df names = inr series.
Proof.
intros [cols Hcols]%mapM_getitem. unfold mean_axis1. rewrite Hcols.
by eexists.
Qed.

(** The adjusted value of a gene is at least its p-value. *)
Lemma benjamini_hochberg_above (p : list Qc) (g : nat) (pg adj : Qc) :
  Forall (λ q, 0 ≤ q ∧ q ≤ 1) p →
  p !! g = Some pg → Reference.benjamini_hochberg p !! g = Some adj →
  pg ≤ adj.
Proof.
intros Hp Hg Hx.
assert (Forall (Qcle 0) p) as Hp0.
{ eapply Forall_impl; [done|]. by intros q [? _]. }
pose proof (lookup_lt_Some _ _ _ Hg) as Hlt.
destruct (benjamini_hochberg_lookup p g Hlt) as (v & Hv & Hx').
simplify_eq.
pose proof (rank0_lookup p g Hlt) as Hr.
set (r := Reference.rank0 (MultiTest.argsort p) g) in *.
unfold Reference.monotone in Hv.
assert (0 ≤ v).
{ eapply (Forall_lookup_1 _ (Reference.monotone p));
    [by apply monotone_nonneg|done]. }
destruct (running_min_down_attained _ _ _ Hv) as (j & Hj & Hadj).
destruct (lookup_lt_is_Some_2 (MultiTest.argsort p) j) as [gj Hgj].
{ apply lookup_lt_Some in Hadj. rewrite adjusted_length in Hadj.
  by rewrite argsort_length. }
rewrite (adjusted_lookup _ _ _ Hgj) in Hadj. injection Hadj as <-.
pose proof (argsort_sorted p r j g gj Hr Hgj Hj) as Hsorted.
rewrite (list_lookup_total_correct _ _ _ Hg) in Hsorted.
assert (0 ≤ p !!! gj) by (by trans pg; [eapply Forall_lookup_1|]).
assert (p !!! gj
        ≤ p !!! gj * Qc_of_nat (length p) / Qc_of_nat (S j)) as Hscaled.
{ assert (Qc_of_nat (S j) ≠ 0) by (apply Qc_of_nat_ne0; lia).
  replace (p !!! gj) with (p !!! gj * Qc_of_nat (S j) / Qc_of_nat (S j)) at 1
    by (field; done).
  apply Qcdiv_le_mono_pos; [apply Qc_of_nat_pos; lia|].
  apply Qcmult_le_mono_nonneg_l; [done|].
  apply Qc_of_nat_le. apply lookup_lt_Some in Hgj.
  rewrite argsort_length in Hgj. lia. }
rewrite clip01_nonneg by done. apply Qcmin_glb.
- by destruct (Forall_lookup_1 _ _ _ _ Hp Hg).
- by do 2 (etrans; [eassumption|]).
Qed.

End pipeline_laws.

(** X3.  With the two groups exchanged the pipeline returns the mirror
    image of the table: every gene keeps its BaseMean, p-value and FDR, and
    its Log2FoldChange changes sign.  Any view of the mirrored table holds
    the mirror images of the rows of the same view of the table. *)
Theorem exchanging_groups_mirrors_the_table
    log2 inp df gene_id_col treated untreated results :
  compute_results log2 inp df gene_id_col treated untreated = inr results →
  compute_results log2 inp df gene_id_col untreated treated
  = inr (mirror <$> results)
  ∧ ∀ a b c, filtered_df (mirror <$> results) a b c
             = mirror <$> filtered_df results a b c.
Proof.
intros Hres. split; [|intros; apply filtered_df_mirror].
unfold compute_results, mbind, except_bind in *.
destruct (call inp call_mean) as [?|[]]; [done|].
destruct (mean_axis1 df untreated) as [?|ue] eqn:Hu; [done|].
destruct (mean_axis1 df treated) as [?|te] eqn:Ht; [done|].
destruct (call inp call_log2) as [?|[]]; [done|].
destruct (call inp call_uniform) as [?|[]]; [done|].
destruct (call inp call_multipletests) as [?|[]]; [done|].
rewrite (log2_fold_change_length _ _ _ (nrows df))
  by (by eapply mean_axis1_length).
rewrite (log2_fold_change_length _ _ _ (nrows df)) in Hres
  by (by eapply mean_axis1_length).
simpl in *.
destruct (from_option (getitem df) _ gene_id_col) as [?|genes]; [done|].
destruct (call inp call_DataFrame) as [?|[]]; [done|].
injection Hres as <-. f_equal.
rewrite base_mean_swap, log2_fold_change_swap.
apply make_results_mirror.
rewrite (log2_fold_change_length _ _ _ (nrows df)); [done|..];
  by eapply mean_axis1_length.
Qed.

Lemma exchanging_groups_mirrors_the_table_witness :
  compute_results Sample.log2 Examples.run_counts Examples.counts_coerced
    (Some "Gene") ["T1"; "T2"] ["U1"; "U2"]
  = inr Examples.counts_results
  ∧ compute_results Sample.log2 Examples.run_counts Examples.counts_coerced
      (Some "Gene") ["U1"; "U2"] ["T1"; "T2"]
    = inr (mirror <$> Examples.counts_results).
Proof.
assert (compute_results Sample.log2 Examples.run_counts Examples.counts_coerced
          (Some "Gene") ["T1"; "T2"] ["U1"; "U2"]
        = inr Examples.counts_results) as Hres by (vm_compute; reflexivity).
split; [exact Hres|].
exact (proj1 (exchanging_groups_mirrors_the_table _ _ _ _ _ _ _ Hres)).
Defined.

(** X4.  When no library call fails, the frame has at least one row and
    columns of distinct names, the samples of both groups are columns of the
    frame and so is the gene column, the pipeline returns a table with
    exactly one row per row of the frame, and row [i] carries cell [i] of
    the gene column: the genes keep the order of the upload. *)
Theorem pipeline_returns_one_row_per_gene
    log2 inp df gene treated untreated genes :
  (∀ c, faults inp c = None) →
  NoDup (column_names df) →
  (0 < nrows df)%nat →
  Forall (λ sample, sample ∈ column_names df) treated →
  Forall (λ sample, sample ∈ column_names df) untreated →
  getitem df gene = inr genes →
  ∃ results,
    compute_results log2 inp df (Some gene) treated untreated = inr results
    ∧ length results = nrows df
    ∧ ∀ i, (i < nrows df)%nat → Gene <$> results !! i = Some (genes !!! i).
Proof.
intros Hfaults _ Hrows Ht Hu Hgenes.
destruct (mean_axis1_returns df untreated Hu) as [ue Hue].
destruct (mean_axis1_returns df treated Ht) as [te Hte].
assert (∀ c, call inp c = inr ()) as Hcall
  by (intros c; unfold call; by rewrite Hfaults).
eexists. split; [|split].
- unfold compute_results, mbind, except_bind.
  rewrite !Hcall, Hue, Hte.
  rewrite (log2_fold_change_length _ _ _ (nrows df))
    by (by eapply mean_axis1_length).
  simpl. rewrite Hgenes. reflexivity.
- apply make_results_length.
- intros i Hi. unfold make_results.
  by rewrite list_lookup_fmap, lookup_seq_lt.
Qed.

Lemma pipeline_returns_one_row_per_gene_witness :
  ∃ results,
    compute_results Sample.log2 Examples.run_counts Examples.counts_coerced
      (Some "Gene") ["T1"; "T2"] ["U1"; "U2"] = inr results
    ∧ length results = 2%nat
    ∧ Gene <$> results !! 1%nat = Some (Text "G2").
Proof.
assert (getitem Examples.counts_coerced "Gene" = inr [Text "G1"; Text "G2"])
  as Hgenes by (vm_compute; reflexivity).
assert (0 < nrows Examples.counts_coerced)%nat as Hrows by (simpl; lia).
assert (NoDup (column_names Examples.counts_coerced)) as Hnames
  by decide_by_computation.
destruct (pipeline_returns_one_row_per_gene Sample.log2 Examples.run_counts
            Examples.counts_coerced "Gene" ["T1"; "T2"] ["U1"; "U2"]
            [Text "G1"; Text "G2"]
            (λ _, eq_refl) Hnames Hrows) as (results & Hres & Hlen & Hgene);
  [repeat constructor; decide_by_computation
  |repeat constructor; decide_by_computation
  |exact Hgenes|].
exists results. split; [exact Hres|]. split; [exact Hlen|].
exact (Hgene 1%nat (le_n 2)).
Defined.

(** X5.  The p-value and FDR columns do not depend on the data: two runs
    of the pipeline over frames with the same number of rows, fed the same
    random words, have the same two columns, whatever the counts, the groups
    and the logarithm. *)
Theorem significance_ignores_the_data
    log2 log2' inp inp' df df' gene gene' treated treated' untreated untreated'
    results results' :
  compute_results log2 inp df gene treated untreated = inr results →
  compute_results log2' inp' df' gene' treated' untreated' = inr results' →
  nrows df = nrows df' →
  (∀ i, draws inp i = draws inp' i) →
  pvalue <$> results = pvalue <$> results'
  ∧ FDR <$> results = FDR <$> results'.
Proof.
intros Hres Hres' Hrows Hdraws.
destruct (compute_results_fdr _ _ _ _ _ _ _ Hres) as [-> ->].
destruct (compute_results_fdr _ _ _ _ _ _ _ Hres') as [-> ->].
assert (uniform_array 0 (frac 5 100) (draws inp) (nrows df)
        = uniform_array 0 (frac 5 100) (draws inp') (nrows df')) as ->; [|done].
rewrite <- Hrows. unfold uniform_array.
apply Forall_fmap_ext_1, Forall_forall. intros i _. simpl. by rewrite Hdraws.
Qed.

Lemma significance_ignores_the_data_witness :
  pvalue <$> Examples.counts_results
  = pvalue <$> (mirror <$> Examples.counts_results)
  ∧ FDR <$> Examples.counts_results = FDR <$> (mirror <$> Examples.counts_results).
Proof.
assert (compute_results Sample.log2 Examples.run_counts Examples.counts_coerced
          (Some "Gene") ["T1"; "T2"] ["U1"; "U2"]
        = inr Examples.counts_results) as Hres by (vm_compute; reflexivity).
assert (compute_results Sample.log2 Examples.run_counts Examples.counts_coerced
          (Some "Gene") ["U1"; "U2"] ["T1"; "T2"]
        = inr (mirror <$> Examples.counts_results)) as Hres'
  by decide_by_computation.
exact (significance_ignores_the_data _ _ _ _ _ _ _ _ _ _ _ _ _ _
         Hres Hres' eq_refl (λ _, eq_refl)).
Defined.

(** X6.  In every row of a table the pipeline computes, the FDR is at
    least the p-value (and, by C9, below 0.05): a gene highlighted at some
    FDR cutoff has its p-value under that cutoff too. *)
Theorem fdr_at_least_pvalue
    log2 inp df gene_id_col treated untreated results :
  compute_results log2 inp df gene_id_col treated untreated = inr results →
  Forall (λ r, ∃ p q, pvalue r = Fin p ∧ FDR r = Fin q ∧ p ≤ q
                      ∧ ∀ cutoff, F.le (FDR r) (Fin cutoff) = true →
                                  F.le (pvalue r) (Fin cutoff) = true)
    results.
Proof.
intros Hres. destruct (compute_results_fdr _ _ _ _ _ _ _ Hres) as [Hp Hfdr].
set (p := uniform_array 0 (frac 5 100) (draws inp) (nrows df)) in *.
assert (Forall (λ q, 0 ≤ q ∧ q ≤ 1) p) as Hrange.
{ eapply Forall_impl; [apply (uniform_array_range (frac 5 100)); done|].
  intros q [? Hq]. split; [done|].
  apply Qclt_le_weak. eapply Qclt_le_trans; [exact Hq|]. by vm_compute. }
apply Forall_lookup. intros i r Hr.
assert ((pvalue <$> results) !! i = Some (pvalue r)) as Hpi
  by (by rewrite list_lookup_fmap, Hr).
assert ((FDR <$> results) !! i = Some (FDR r)) as Hqi
  by (by rewrite list_lookup_fmap, Hr).
rewrite Hp in Hpi. rewrite Hfdr in Hqi.
apply list_lookup_fmap_Some in Hpi as (pi & Hpr & Hpi).
apply list_lookup_fmap_Some in Hqi as (qi & Hqr & Hqi).
pose proof (benjamini_hochberg_above p i pi qi Hrange Hpi Hqi) as Hle.
exists pi, qi. rewrite Hpr, Hqr. repeat split; try done.
intros cutoff. simpl. rewrite !bool_decide_eq_true. intros ?. by trans qi.
Qed.

Lemma fdr_at_least_pvalue_witness :
  Forall (λ r, ∃ p q, pvalue r = Fin p ∧ FDR r = Fin q ∧ p ≤ q
                      ∧ ∀ cutoff, F.le (FDR r) (Fin cutoff) = true →
                                  F.le (pvalue r) (Fin cutoff) = true)
    Examples.counts_results.
Proof.
assert (compute_results Sample.log2 Examples.run_counts Examples.counts_coerced
          (Some "Gene") ["T1"; "T2"] ["U1"; "U2"]
        = inr Examples.counts_results) as Hres by (vm_compute; reflexivity).
exact (fdr_at_least_pvalue _ _ _ _ _ _ _ Hres).
Defined.

(** ** Condition labels *)

Section labels.
Implicit Types (d : list (string * string)) (k v : string).

Lemma dict_set_keys d k v :
  (dict_set d k v).*1 = if decide (k ∈ d.*1) then d.*1 else d.*1 ++ [k].
Proof.
induction d as [|[k0 v0] d IH]; [done|]. simpl.
destruct (decide (k0 = k)) as [->|Hne]; csimpl.
- by rewrite decide_True by left.
- rewrite IH. destruct (decide (k ∈ d.*1)) as [Hin|Hin].
  + by rewrite decide_True by by right.
  + rewrite decide_False; [done|].
    intros [?|?]%elem_of_cons; [by apply Hne|done].
Qed.

Lemma dict_set_NoDup d k v : NoDup d.*1 → NoDup (dict_set d k v).*1.
Proof.
intros Hd. rewrite dict_set_keys. case_decide as Hin; [done|].
apply NoDup_app. split; [done|]. split; [|apply NoDup_singleton].
intros k' Hk' ->%list_elem_of_singleton. done.
Qed.

Lemma elem_of_dict_set d k v k' v' :
  NoDup d.*1 →
  (k', v') ∈ dict_set d k v ↔ (k' = k ∧ v' = v) ∨ (k' ≠ k ∧ (k', v') ∈ d).
Proof.
induction d as [|[k0 v0] d IH]; intros Hd; simpl.
{ rewrite list_elem_of_singleton, elem_of_nil. split.
  - intros [= -> ->]. by left.
  - intros [[-> ->]|[_ []]]. done. }
csimpl in Hd. apply NoDup_cons in Hd as [Hk0 Hd].
destruct (decide (k0 = k)) as [->|Hne].
- rewrite !elem_of_cons. split.
  + intros [[= -> ->]|Hin]; [by left|]. right. split; [|by right].
    intros ->. apply Hk0. apply list_elem_of_fmap. by exists (k, v').
  + intros [[-> ->]|[Hne [[= -> ->]|Hin]]]; [by left|done|by right].
- rewrite !elem_of_cons, IH by done. split.
  + intros [[= -> ->]|[[-> ->]|[? ?]]]; [|by left|].
    * right. split; [done|by left].
    * right. split; [done|by right].
  + intros [[-> ->]|[? [[= -> ->]|?]]]; [right; by left|by left|].
    right. right. done.
Qed.

(** What the loop of lines 70-73 has built after the samples of [seen]:
    one entry per sample with a text, holding that text. *)
Lemma build_condition_mapping_from text d seen sample_cols :
  NoDup d.*1 →
  (∀ k v, (k, v) ∈ d ↔ k ∈ seen ∧ v = text k ∧ v ≠ "") →
  let mapping :=
    foldl (λ mapping sample,
             let condition := text sample in
             if decide (condition = "") then mapping
             else dict_set mapping sample condition)
          d sample_cols in
  NoDup mapping.*1
  ∧ ∀ k v, (k, v) ∈ mapping ↔ k ∈ seen ++ sample_cols ∧ v = text k ∧ v ≠ "".
Proof.
revert d seen. induction sample_cols as [|s sample_cols IH];
  intros d seen Hd Hinv; simpl.
{ split; [done|]. intros k v. by rewrite (right_id_L [] (++)). }
assert (∀ k v, k ∈ seen ++ s :: sample_cols ∧ v = text k ∧ v ≠ ""
               ↔ k ∈ (seen ++ [s]) ++ sample_cols ∧ v = text k ∧ v ≠ "")
  as Hshift by (intros; by rewrite <- (assoc_L (++))).
destruct (decide (text s = "")) as [Hs|Hs].
- destruct (IH d (seen ++ [s]) Hd) as [? Hfinal]; [|split; [done|]].
  + intros k v. rewrite Hinv, elem_of_app, list_elem_of_singleton.
    split; [tauto|]. intros [[?| ->] [-> ?]]; done.
  + intros k v. by rewrite Hfinal, Hshift.
- destruct (IH (dict_set d s (text s)) (seen ++ [s]))
    as [? Hfinal]; [by apply dict_set_NoDup| |split; [done|]].
  + intros k v. rewrite elem_of_dict_set, Hinv by done.
    rewrite elem_of_app, list_elem_of_singleton.
    destruct (decide (k = s)) as [->|Hne]; [|tauto].
    split; [intros [[_ ->]|[[] _]]; split; [by right|done]|].
    intros (_ & -> & _). by left.
  + intros k v. by rewrite Hfinal, Hshift.
Qed.

End labels.

(** X7.  A sample is in the group of a label exactly when it is selected,
    its text box is not empty and the text, lowered, is the label.  Each
    group lists a sample once, whatever the selection, and no sample is in
    both the treated and the untreated group. *)
Theorem groups_from_labels (sample_cols : list string) (text : string → string) :
  let mapping := build_condition_mapping sample_cols text in
  (∀ label sample,
     sample ∈ samples_labelled label mapping
     ↔ sample ∈ sample_cols ∧ text sample ≠ "" ∧ lower (text sample) = label)
  ∧ (∀ label, NoDup (samples_labelled label mapping))
  ∧ (∀ sample, sample ∈ samples_labelled "treated" mapping →
               sample ∉ samples_labelled "untreated" mapping).
Proof.
intros mapping.
destruct (build_condition_mapping_from text [] [] sample_cols)
  as [Hnodup Hin]; [constructor|intros k v; rewrite !elem_of_nil; tauto|].
change (NoDup mapping.*1) in Hnodup.
change (∀ k v, (k, v) ∈ mapping ↔ k ∈ [] ++ sample_cols ∧ v = text k ∧ v ≠ "")
  in Hin.
simpl in Hin.
assert (∀ label sample,
          sample ∈ samples_labelled label mapping
          ↔ sample ∈ sample_cols ∧ text sample ≠ ""
            ∧ lower (text sample) = label) as Hgroup.
{ intros label sample. unfold samples_labelled.
  rewrite list_elem_of_fmap. split.
  - intros ([k v] & -> & [Hlabel Hkv%Hin]%list_elem_of_filter). simpl in *.
    destruct Hkv as (? & -> & ?). done.
  - intros (Hsel & Htext & Hlabel). exists (sample, text sample).
    split; [done|]. apply list_elem_of_filter. split; [done|].
    by apply Hin. }
split; [done|]. split.
- intros label. unfold samples_labelled.
  apply (sublist_NoDup _ mapping.*1); [exact Hnodup|].
  apply fmap_sublist, sublist_filter.
- intros sample (_ & _ & Ht)%Hgroup (_ & _ & Hu)%Hgroup.
  rewrite Ht in Hu. discriminate.
Qed.

(** ** The coercion of the sample columns *)

Section coercion.
Context (str_to_float : string → fnum) (inp : inputs).
Implicit Types (df : DataFrame) (cs : list (string * list cell)).

Lemma column_names_setitem df name values :
  column_names (setitem df name values) = column_names df.
Proof.
unfold column_names, setitem. simpl. rewrite <- list_fmap_compose.
apply list_fmap_ext. intros _ [n col] _. simpl. by case_decide.
Qed.

Lemma getitem_setitem_ne df name values other :
  other ≠ name → getitem (setitem df name values) other = getitem df other.
Proof.
intros Hne. unfold getitem, setitem. simpl.
induction (columns df) as [|[n col] cs IH]; [done|]. csimpl.
destruct (decide (n = name)) as [->|Hn]; simpl.
- rewrite !decide_False by done.
  destruct (list_find _ _) as [[? ?]|], (list_find _ cs) as [[? ?]|];
    simpl in *; congruence.
- destruct (decide (n = other)); [done|].
  destruct (list_find _ _) as [[? ?]|], (list_find _ cs) as [[? ?]|];
    simpl in *; congruence.
Qed.

Lemma getitem_setitem_eq df name values :
  name ∈ column_names df → getitem (setitem df name values) name = inr values.
Proof.
unfold getitem, setitem, column_names. simpl.
induction (columns df) as [|[n col] cs IH]; [by intros ?%elem_of_nil|].
csimpl. intros Hin. destruct (decide (n = name)) as [->|Hn]; simpl.
- by rewrite decide_True.
- rewrite decide_False by done.
  apply elem_of_cons in Hin as [?|Hin]; [done|].
  specialize (IH Hin).
  destruct (list_find _ _) as [[? ?]|]; simpl in *; congruence.
Qed.

Lemma getitem_is_column df name col :
  getitem df name = inr col → name ∈ column_names df.
Proof.
unfold getitem.
destruct (list_find _ _) as [[i c]|] eqn:Hfind; [|done]. intros _.
apply list_find_Some in Hfind as (Hc & <- & _).
apply list_elem_of_fmap. exists c. split; [done|].
by eapply list_elem_of_lookup_2.
Qed.

Lemma mapM_getitem_inv df names selected :
  mapM (getitem df) names = inr selected →
  Forall2 (λ name col, getitem df name = inr col) names selected.
Proof.
revert selected. induction names as [|name names IH]; intros selected.
{ intros [= <-]. constructor. }
rewrite mapM_except_cons.
destruct (getitem df name) as [?|col] eqn:Hcol; [done|].
destruct (mapM (getitem df) names) as [?|cols] eqn:Hcols; [done|].
intros [= <-]. constructor; [done|]. by apply IH.
Qed.

(** Assigning, one after the other, to columns of the frame the values a
    function gives for their names. *)
Lemma getitem_assignments (values_for : string → list cell) df
    (assigns : list (string * list cell)) name :
  Forall (λ nc, nc.1 ∈ column_names df ∧ nc.2 = values_for nc.1) assigns →
  column_names (foldl (λ d nc, setitem d nc.1 nc.2) df assigns)
  = column_names df
  ∧ nrows (foldl (λ d nc, setitem d nc.1 nc.2) df assigns) = nrows df
  ∧ getitem (foldl (λ d nc, setitem d nc.1 nc.2) df assigns) name
    = if decide (name ∈ assigns.*1) then inr (values_for name)
      else getitem df name.
Proof.
revert df. induction assigns as [|[n v] assigns IH]; intros df Hall.
{ by rewrite decide_False by apply not_elem_of_nil. }
apply Forall_cons in Hall as [[Hn Hv] Hall]. simpl in Hn, Hv. subst v.
destruct (IH (setitem df n (values_for n))) as (Hnames & Hrows & Hget).
{ eapply Forall_impl; [exact Hall|]. intros nc [? ?].
  by rewrite column_names_setitem. }
simpl. rewrite Hnames, Hrows, Hget, column_names_setitem.
split; [done|]. split; [done|]. csimpl.
destruct (decide (name ∈ assigns.*1)) as [Hin|Hin].
- by rewrite decide_True by by right.
- destruct (decide (name = n)) as [->|Hne].
  + rewrite decide_True by left. by apply getitem_setitem_eq.
  + rewrite decide_False by (intros [?|?]%elem_of_cons; done).
    by apply getitem_setitem_ne.
Qed.

End coercion.

(** X8.  On a frame with columns of distinct names and for distinct
    selected samples, the coercion keeps the number of rows and the column
    names, leaves every column that is not selected as it was, and puts in
    each selected column the number read in each of its cells (not-a-number
    where none is read): afterwards a selected column holds numbers only. *)
Theorem coercion_changes_selected_columns_only
    str_to_float inp df sample_cols df' :
  NoDup (column_names df) →
  NoDup sample_cols →
  coerce_samples str_to_float inp df sample_cols = inr df' →
  nrows df' = nrows df
  ∧ column_names df' = column_names df
  ∧ (∀ name col, name ∈ sample_cols → getitem df name = inr col →
       getitem df' name = inr (Number ∘ to_numeric str_to_float <$> col))
  ∧ (∀ name, name ∉ sample_cols → getitem df' name = getitem df name).
Proof.
intros _ _. unfold coerce_samples.
destruct (mapM (getitem df) sample_cols) as [?|selected] eqn:Hsel; [done|].
change (inr selected ≫= _)
  with (call inp call_to_numeric ≫= λ _ : (),
        mret (foldl (λ d nc, setitem d nc.1 nc.2) df
                (zip sample_cols
                   ((λ col : list cell,
                       Number ∘ to_numeric str_to_float <$> col)
                    <$> selected))) : except DataFrame).
destruct (call inp call_to_numeric) as [?|[]]; [done|].
intros [= <-].
apply mapM_getitem_inv in Hsel.
set (values_for := λ name : string,
       match getitem df name with
       | inr col => Number ∘ to_numeric str_to_float <$> col
       | inl _ => []
       end).
set (assigns := zip sample_cols
                  ((λ col : list cell,
                      Number ∘ to_numeric str_to_float <$> col) <$> selected)).
assert (assigns.*1 = sample_cols) as Hkeys.
{ unfold assigns. apply fst_zip.
  rewrite length_fmap. by rewrite (Forall2_length _ _ _ Hsel). }
assert (Forall (λ nc, nc.1 ∈ column_names df ∧ nc.2 = values_for nc.1) assigns)
  as Hall.
{ unfold assigns. clear Hkeys assigns.
  induction Hsel as [|name col names cols Hcol _ IH]; [constructor|].
  csimpl. constructor; [|exact IH]. simpl. split.
  - by eapply getitem_is_column.
  - unfold values_for. by rewrite Hcol. }
split; [by apply (getitem_assignments values_for df assigns "")|].
split; [by apply (getitem_assignments values_for df assigns "")|].
split.
- intros name col Hin Hcol.
  destruct (getitem_assignments values_for df assigns name Hall)
    as (_ & _ & ->).
  rewrite decide_True by by rewrite Hkeys.
  unfold values_for. by rewrite Hcol.
- intros name Hnot.
  destruct (getitem_assignments values_for df assigns name Hall)
    as (_ & _ & ->).
  by rewrite decide_False by by rewrite Hkeys.
Qed.

Lemma coercion_changes_selected_columns_only_witness :
  coerce_samples Sample.str_to_float Examples.run_counts Examples.counts_frame
    ["T1"; "T2"; "U1"; "U2"] = inr Examples.counts_coerced
  ∧ getitem Examples.counts_frame "U1" = inr [Number (Fin (frac 5 1)); Text "x"]
  ∧ getitem Examples.counts_coerced "U1"
    = inr (Number ∘ to_numeric Sample.str_to_float
             <$> [Number (Fin (frac 5 1)); Text "x"])
  ∧ getitem Examples.counts_coerced "Gene" = getitem Examples.counts_frame "Gene".
Proof.
assert (coerce_samples Sample.str_to_float Examples.run_counts
          Examples.counts_frame ["T1"; "T2"; "U1"; "U2"]
        = inr Examples.counts_coerced) as Hcoerce by (vm_compute; reflexivity).
assert (getitem Examples.counts_frame "U1"
        = inr [Number (Fin (frac 5 1)); Text "x"]) as Hcol
  by decide_by_computation.
assert (NoDup (column_names Examples.counts_frame)) as Hnames
  by decide_by_computation.
assert (NoDup ["T1"; "T2"; "U1"; "U2"]) as Hsamples by decide_by_computation.
destruct (coercion_changes_selected_columns_only _ _ _ _ _
            Hnames Hsamples Hcoerce)
  as (_ & _ & Hselected & Hother).
split; [exact Hcoerce|]. split; [exact Hcol|]. split.
- apply Hselected; [|exact Hcol]. decide_by_computation.
- apply Hother. decide_by_computation.
Defined.

(** ** Whole runs of the page script *)

Section whole_run.
Context (log2 : fnum → fnum) (str_to_float : string → fnum).
Context (inp : inputs).
Implicit Types (df : DataFrame) (w : world) (e : exn).

Local Abbreviation run_differential_expression :=
  (run_differential_expression log2 str_to_float inp).
Local Abbreviation tab2 := (tab2 inp).
Local Abbreviation view_of results :=
  (filtered_df results (fdr_cutoff inp) (base_mean_cutoff inp)
     (log2fc_cutoff inp)).

Lemma selectbox_column options choice :
  options ≠ [] → ∃ g, selectbox options choice = Some g ∧ g ∈ options.
Proof.
intros Hne. unfold selectbox. case_decide; [by eexists|].
destruct options as [|g options]; [done|]. exists g. split; [done|left].
Qed.

Lemma samples_labelled_selected label sample_cols text sample :
  sample ∈ samples_labelled label (build_condition_mapping sample_cols text) →
  sample ∈ sample_cols.
Proof.
destruct (build_condition_mapping_from text [] [] sample_cols)
  as [_ Hin]; [constructor|intros k v; rewrite !elem_of_nil; tauto|].
unfold samples_labelled. rewrite list_elem_of_fmap.
intros ([k v] & -> & [_ Hkv]%list_elem_of_filter).
apply Hin in Hkv as [Hk _]. exact Hk.
Qed.

Lemma setitems_shape df (assigns : list (string * list cell)) :
  nrows (foldl (λ d nc, setitem d nc.1 nc.2) df assigns) = nrows df
  ∧ column_names (foldl (λ d nc, setitem d nc.1 nc.2) df assigns)
    = column_names df.
Proof.
revert df. induction assigns as [|[n v] assigns IH]; intros df; [done|].
simpl. destruct (IH (setitem df n v)) as [-> ->].
by rewrite column_names_setitem.
Qed.

Lemma coerce_samples_shape df sample_cols df' :
  coerce_samples str_to_float inp df sample_cols = inr df' →
  nrows df' = nrows df ∧ column_names df' = column_names df.
Proof.
unfold coerce_samples, mbind, except_bind.
destruct (mapM (getitem df) sample_cols) as [?|selected]; [done|].
destruct (call inp call_to_numeric) as [?|[]]; [done|].
intros [= <-]. apply setitems_shape.
Qed.

(** With no library call failing, the pipeline returns. *)
Lemma compute_results_returns df gene treated untreated :
  (∀ c, faults inp c = None) →
  Forall (λ sample, sample ∈ column_names df) treated →
  Forall (λ sample, sample ∈ column_names df) untreated →
  gene ∈ column_names df →
  ∃ results,
    compute_results log2 inp df (Some gene) treated untreated = inr results.
Proof.
intros Hfaults Ht Hu Hgene.
destruct (mean_axis1_returns df untreated Hu) as [ue Hue].
destruct (mean_axis1_returns df treated Ht) as [te Hte].
destruct (getitem_column df gene Hgene) as [genes Hgenes].
assert (∀ c, call inp c = inr ()) as Hcall
  by (intros c; unfold call; by rewrite Hfaults).
eexists. unfold compute_results, mbind, except_bind.
rewrite !Hcall, Hue, Hte. simpl. rewrite Hgenes. reflexivity.
Qed.

(** The guarded run on the selection of the first tab, when no library
    call fails and both groups have a sample. *)
Lemma run_on_selection df w :
  (∀ c, faults inp c = None) →
  let gene_id_col := selectbox (column_names df) (gene_choice inp) in
  let sample_cols := multiselect (column_names df) (sample_choice inp) in
  let mapping := build_condition_mapping sample_cols (text_input inp) in
  samples_labelled "treated" mapping ≠ [] →
  samples_labelled "untreated" mapping ≠ [] →
  ∃ results,
    length results = nrows df
    ∧ run_differential_expression df gene_id_col sample_cols mapping w
      = (Done (),
         {| session_results := Some results;
            page := page w ++ [st_success (message_completed (nrows df))] |}).
Proof.
intros Hfaults gene_id_col sample_cols mapping Ht Hu.
assert (∀ label,
          Forall (λ sample, sample ∈ column_names df)
            (samples_labelled label mapping)) as Hgroups.
{ intros label. apply Forall_forall. intros sample Hin.
  apply samples_labelled_selected in Hin.
  unfold sample_cols, multiselect in Hin.
  by apply list_elem_of_filter in Hin as [? _]. }
assert (column_names df ≠ []) as Hcolumns.
{ destruct (samples_labelled "treated" mapping) as [|s ?] eqn:Hs; [done|].
  pose proof (Hgroups "treated") as Hall. rewrite Hs in Hall.
  apply Forall_cons in Hall as [Hin _]. intros Hnil. rewrite Hnil in Hin.
  by apply elem_of_nil in Hin. }
destruct (selectbox_column _ (gene_choice inp) Hcolumns) as (gene & Hgene & Hin).
fold gene_id_col in Hgene.
destruct (coerce_samples_selected str_to_float inp df (sample_choice inp))
  as [df' Hcoerce]; [done|].
fold sample_cols in Hcoerce.
destruct (coerce_samples_shape _ _ _ Hcoerce) as [Hrows Hnames].
assert (∀ label,
          Forall (λ sample, sample ∈ column_names df')
            (samples_labelled label mapping)) as Hgroups'
  by (intros; rewrite Hnames; apply Hgroups).
destruct (compute_results_returns df' gene
            (samples_labelled "treated" mapping)
            (samples_labelled "untreated" mapping))
  as [computed Hok]; [done|done|done|by rewrite Hnames|].
destruct (run_differential_expression_cases log2 str_to_float inp
            df gene_id_col sample_cols mapping w)
  as [(e & Hwhy & Hrun) | [(df1 & _ & Hg & _)
                          | (df1 & results & Hc & _ & _ & Hres & Hrun)]].
- destruct Hwhy as [Hc|(df1 & Hc & _ & _ & Hres)]; [congruence|].
  assert (df1 = df') as -> by congruence.
  rewrite Hgene in Hres. congruence.
- by destruct Hg.
- assert (df1 = df') as -> by congruence.
  exists results.
  destruct (compute_results_columns _ _ _ _ _ _ _ Hres) as [Hlen _].
  rewrite Hrun, Hlen, Hrows. done.
Qed.

(** The results tab, case by case. *)
Lemma tab2_cases cols w :
  tab2 cols w =
    match session_results w with
    | None =>
        (Done (),
         render w [st_header "📊 Differential Expression Results and Visualization";
                   st_info message_no_results])
    | Some results =>
        let view := view_of results in
        let flags := highlighted results (fdr_cutoff inp) in
        let counted :=
          [st_header "📊 Differential Expression Results and Visualization";
           st_write (message_detected (length view))] in
        let drawn :=
          [st_ma_plot results flags; st_volcano_plot results flags;
           st_table view; st_download_button view] in
        if decide (view = []) then (Done (), render w (counted ++ drawn))
        else
          match cols with
          | Some sample_cols =>
              match heatmap_of sample_cols with
              | inl e => (Raised e, render w counted)
              | inr _ =>
                  (Done (),
                   render w (counted ++ st_heatmap (Gene <$> view) sample_cols
                                        :: drawn))
              end
          | None => (Raised (NameError "sample_cols"), render w counted)
          end
    end.
Proof.
unfold tab2. unfold_script. simpl.
destruct (session_results w) as [results|] eqn:Hres; simpl.
2:{ by rewrite render_render. }
rewrite render_render.
case_decide; simpl.
{ by rewrite !render_render. }
destruct cols as [sample_cols|]; simpl; [|done].
destruct (heatmap_of sample_cols) as [e|[]]; simpl; [done|].
by rewrite !render_render.
Qed.

End whole_run.

(** X9.  An upload that loads and is previewed, with column names that
    are distinct once trimmed, distinct samples picked, the button pressed,
    a sample labelled treated and one labelled untreated among the selected
    columns, and no library call failing: the first tab returns, having
    shown the preview, the columns, the mapping and the completion message
    with the number of rows of the upload, and nothing else; the session
    then holds a table with one row per row of the upload, also at the end
    of the run of the page. *)
Theorem analysis_completes log2 str_to_float read_csv inp uploaded df0 w :
  uploaded_file inp = Some uploaded →
  load_dataset read_csv uploaded = inr df0 →
  let df := strip_columns df0 in
  NoDup (column_names df) →
  NoDup (sample_choice inp) →
  run_button inp = true →
  (∀ c, faults inp c = None) →
  let sample_cols := multiselect (column_names df) (sample_choice inp) in
  let mapping := build_condition_mapping sample_cols (text_input inp) in
  samples_labelled "treated" mapping ≠ [] →
  samples_labelled "untreated" mapping ≠ [] →
  ∃ results,
    tab1 log2 str_to_float read_csv inp w
    = (Done (Some sample_cols),
       {| session_results := Some results;
          page := page w
                  ++ [st_header "📤 Upload and Configure Dataset";
                      st_dataframe_head df;
                      st_write_columns (column_names df);
                      st_write_mapping mapping;
                      st_success
                        ("✅ Differential expression completed! "
                         +:+ pretty (nrows df0) +:+ " genes analyzed.")] |})
    ∧ length results = nrows df0
    ∧ session_results (app log2 str_to_float read_csv inp w).2 = Some results.
Proof.
intros Hup Hload df _ _ Hbutton Hfaults sample_cols mapping Ht Hu.
change ("✅ Differential expression completed! "
        +:+ pretty (nrows df0) +:+ " genes analyzed.")
  with (message_completed (nrows df0)).
assert (sample_cols ≠ []) as Hsel.
{ intros Hnil. apply Ht. unfold mapping. by rewrite Hnil. }
pose proof (tab1_loaded log2 str_to_float read_csv inp w uploaded df0
              Hup Hload (Hfaults call_preview)) as Htab1.
cbv zeta in Htab1. fold df in Htab1.
fold sample_cols in Htab1. fold mapping in Htab1.
rewrite decide_False, Hbutton in Htab1 by done.
match type of Htab1 with
| context [run_differential_expression _ _ _ _ _ _ _ ?w0] =>
    destruct (run_on_selection log2 str_to_float inp df w0 Hfaults Ht Hu)
      as (results & Hlen & Hrun)
end.
fold sample_cols in Hrun. fold mapping in Hrun.
rewrite Hrun in Htab1. cbn [snd] in Htab1.
exists results. split; [|split; [exact Hlen|]].
- rewrite Htab1. unfold render. simpl. by rewrite <- (assoc_L (++)).
- rewrite app_slot, Htab1. done.
Qed.

Lemma analysis_completes_witness :
  ∃ results,
    tab1 Sample.log2 Sample.str_to_float Sample.read_csv Examples.run_counts
      Examples.fresh
    = (Done (Some ["T1"; "T2"; "U1"; "U2"]),
       {| session_results := Some results;
          page := [st_header "📤 Upload and Configure Dataset";
                   st_dataframe_head Examples.counts_frame;
                   st_write_columns ["Gene"; "T1"; "T2"; "U1"; "U2"];
                   st_write_mapping [("T1", "Treated"); ("T2", "Treated");
                                     ("U1", "untreated"); ("U2", "untreated")];
                   st_success
                     "✅ Differential expression completed! 2 genes analyzed."] |})
    ∧ length results = 2%nat.
Proof.
assert (load_dataset Sample.read_csv Examples.counts = inr Examples.counts_frame)
  as Hload by decide_by_computation.
assert (NoDup (column_names (strip_columns Examples.counts_frame))) as Hnames
  by decide_by_computation.
assert (NoDup (sample_choice Examples.run_counts)) as Hsamples
  by decide_by_computation.
destruct (analysis_completes Sample.log2 Sample.str_to_float Sample.read_csv
            Examples.run_counts Examples.counts Examples.counts_frame
            Examples.fresh eq_refl Hload Hnames Hsamples eq_refl
            (λ _, eq_refl))
  as (results & Htab1 & Hlen & _);
  [decide_by_computation|decide_by_computation|].
exists results. split; [exact Htab1|exact Hlen].
Defined.

(** X10.  The same run on an upload that has a header and no row: every
    step of the pipeline works on empty columns, the routine of the library
    returns the empty vector, and the first tab stores an empty table and
    announces that 0 genes were analyzed. *)
Theorem upload_without_rows_stores_an_empty_table
    log2 str_to_float read_csv inp uploaded df0 w :
  uploaded_file inp = Some uploaded →
  load_dataset read_csv uploaded = inr df0 →
  let df := strip_columns df0 in
  NoDup (column_names df) →
  NoDup (sample_choice inp) →
  run_button inp = true →
  (∀ c, faults inp c = None) →
  nrows df0 = 0%nat →
  let sample_cols := multiselect (column_names df) (sample_choice inp) in
  let mapping := build_condition_mapping sample_cols (text_input inp) in
  samples_labelled "treated" mapping ≠ [] →
  samples_labelled "untreated" mapping ≠ [] →
  tab1 log2 str_to_float read_csv inp w
  = (Done (Some sample_cols),
     {| session_results := Some [];
        page := page w
                ++ [st_header "📤 Upload and Configure Dataset";
                    st_dataframe_head df;
                    st_write_columns (column_names df);
                    st_write_mapping mapping;
                    st_success
                      "✅ Differential expression completed! 0 genes analyzed."] |})
  ∧ session_results (app log2 str_to_float read_csv inp w).2 = Some [].
Proof.
intros Hup Hload df _ _ Hbutton Hfaults Hrows sample_cols mapping Ht Hu.
assert (sample_cols ≠ []) as Hsel.
{ intros Hnil. apply Ht. unfold mapping. by rewrite Hnil. }
pose proof (tab1_loaded log2 str_to_float read_csv inp w uploaded df0
              Hup Hload (Hfaults call_preview)) as Htab1.
cbv zeta in Htab1. fold df in Htab1.
fold sample_cols in Htab1. fold mapping in Htab1.
rewrite decide_False, Hbutton in Htab1 by done.
match type of Htab1 with
| context [run_differential_expression _ _ _ _ _ _ _ ?w0] =>
    destruct (run_on_selection log2 str_to_float inp df w0 Hfaults Ht Hu)
      as (results & Hlen & Hrun)
end.
fold sample_cols in Hrun. fold mapping in Hrun.
assert (nrows df = 0%nat) as Hzero by done.
rewrite Hzero in Hlen, Hrun. apply nil_length_inv in Hlen as ->.
rewrite Hrun in Htab1. cbn [snd] in Htab1.
split.
- rewrite Htab1. unfold render. simpl. by rewrite <- (assoc_L (++)).
- rewrite app_slot, Htab1. done.
Qed.

Lemma upload_without_rows_stores_an_empty_table_witness :
  session_results
    (Sample.app Examples.run_header_only Examples.fresh).2 = Some []
  ∧ st_success "✅ Differential expression completed! 0 genes analyzed."
    ∈ page (tab1 Sample.log2 Sample.str_to_float Sample.read_csv
              Examples.run_header_only Examples.fresh).2.
Proof.
assert (load_dataset Sample.read_csv Examples.header_only
        = inr {| nrows := 0;
                 columns := [("Gene", []); ("T1", []); ("U1", [])] |})
  as Hload by decide_by_computation.
destruct (upload_without_rows_stores_an_empty_table
            Sample.log2 Sample.str_to_float Sample.read_csv
            Examples.run_header_only Examples.header_only _
            Examples.fresh eq_refl Hload)
  as (Htab1 & Hslot);
  [decide_by_computation|decide_by_computation|reflexivity|reflexivity
  |reflexivity|decide_by_computation|decide_by_computation|].
split; [exact Hslot|].
rewrite Htab1. simpl. rewrite !elem_of_cons. tauto.
Defined.

(** X11.  A run without an upload.  The first tab then binds no
    [sample_cols], and the heat map of the second tab needs that name: the
    run raises exactly when the session holds a table whose view is not
    empty, the exception is NameError and nothing of the results is shown
    but the number of genes of the view.  In every case the stored table is
    kept. *)
Theorem results_without_upload_raise_name_error
    log2 str_to_float read_csv inp w :
  uploaded_file inp = None →
  let run := app log2 str_to_float read_csv inp w in
  (∀ e, run.1 = Raised e
        ↔ e = NameError "sample_cols"
          ∧ ∃ results,
              session_results w = Some results
              ∧ filtered_df results (fdr_cutoff inp) (base_mean_cutoff inp)
                  (log2fc_cutoff inp) ≠ [])
  ∧ (run.1 ≠ Done () →
     ∃ count,
       drop (length (page w)) (page run.2)
       = [st_header "📤 Upload and Configure Dataset";
          st_info message_no_upload;
          st_header "📊 Differential Expression Results and Visualization";
          st_write (message_detected count)])
  ∧ session_results run.2 = session_results w.
Proof.
intros Hup run. unfold run, app, mbind, script_bind.
rewrite tab1_no_upload by done. rewrite tab2_cases.
set (w1 := render w [st_header "📤 Upload and Configure Dataset";
                     st_info message_no_upload]).
assert (session_results w1 = session_results w) as Hslot by done.
assert (page w1 = page w ++ [st_header "📤 Upload and Configure Dataset";
                             st_info message_no_upload]) as Hpage by done.
clearbody w1. rewrite Hslot.
destruct (session_results w) as [stored|] eqn:Hstored; cbv zeta;
  [case_decide as Hview|]; unfold render; simpl; rewrite ?Hpage, ?Hslot.
- split; [|by split]. intros e. split; [done|].
  by intros (_ & results & [= <-] & Hne).
- split; [|split; [|done]].
  + intros e. split.
    * intros [= <-]. split; [done|]. by exists stored.
    * by intros [-> _].
  + intros _. eexists. by rewrite <- (assoc_L (++)), drop_app_length.
- split; [|by split]. intros e. split; [done|].
  by intros (_ & results & ? & _).
Qed.

Lemma results_without_upload_raise_name_error_witness :
  (Sample.app Examples.default_thresholds
     {| session_results := Some Examples.two_genes; page := [] |}).1
  = Raised (NameError "sample_cols").
Proof.
pose proof (results_without_upload_raise_name_error
              Sample.log2 Sample.str_to_float Sample.read_csv
              Examples.default_thresholds
              {| session_results := Some Examples.two_genes; page := [] |}
              eq_refl) as [Hraise _].
apply Hraise. split; [reflexivity|].
exists Examples.two_genes. split; [reflexivity|]. decide_by_computation.
Defined.

(** X12.  The stored table changes only in a run in which the button is
    pressed, the upload loads, and the pipeline returns on groups that both
    have a sample: it then holds one row per row of the upload and the page
    announces the completion.  So a run that only moves a threshold, or
    changes a selection without a press of the button, keeps the table. *)
Theorem results_replaced_only_by_a_completed_run
    log2 str_to_float read_csv inp w :
  let run := app log2 str_to_float read_csv inp w in
  session_results run.2 ≠ session_results w →
  run_button inp = true
  ∧ ∃ uploaded df0 results,
      uploaded_file inp = Some uploaded
      ∧ load_dataset read_csv uploaded = inr df0
      ∧ (let sample_cols :=
           multiselect (column_names (strip_columns df0)) (sample_choice inp) in
         let mapping := build_condition_mapping sample_cols (text_input inp) in
         samples_labelled "treated" mapping ≠ []
         ∧ samples_labelled "untreated" mapping ≠ [])
      ∧ session_results run.2 = Some results
      ∧ length results = nrows df0
      ∧ st_success (message_completed (length results)) ∈ page run.2.
Proof.
intros run. unfold run, app, mbind, script_bind.
destruct (uploaded_file inp) as [uploaded|] eqn:Hup.
2:{ rewrite tab1_no_upload by done. rewrite tab2_keeps_results. done. }
destruct (load_dataset read_csv uploaded) as [e|df0] eqn:Hload.
{ rewrite (tab1_load_failed _ _ _ _ _ uploaded e) by done. done. }
destruct (faults inp call_preview) as [e|] eqn:Hpreview.
{ rewrite (tab1_preview_failed _ _ _ _ _ uploaded df0 e) by done. done. }
rewrite (tab1_loaded _ _ _ _ _ uploaded df0) by done. cbv zeta.
rewrite tab2_keeps_results.
case_decide; [done|].
destruct (run_button inp); [|done].
match goal with
| |- context [run_differential_expression _ _ _ ?df ?g ?sc ?m ?w0] =>
    destruct (run_differential_expression_cases log2 str_to_float inp
                df g sc m w0)
      as [(e & _ & ->) | [(df' & _ & _ & ->)
                         | (df' & results & Hc & Ht & Hu & Hres & ->)]]
end; [done..|].
cbn [snd]. intros _. split; [done|]. exists uploaded, df0, results.
split; [done|]. split; [done|]. split; [done|].
split; [done|].
destruct (compute_results_columns _ _ _ _ _ _ _ Hres) as [Hlen _].
destruct (coerce_samples_shape _ _ _ _ _ Hc) as [Hrows _].
split; [by rewrite Hlen, Hrows|].
rewrite tab2_cases. cbn [session_results]. cbv zeta.
case_decide; [|destruct (heatmap_of _) as [?|[]]]; unfold render; simpl;
  rewrite !elem_of_app, !elem_of_cons; tauto.
Qed.

Lemma results_replaced_only_by_a_completed_run_witness :
  run_button Examples.run_counts = true
  ∧ ∃ results,
      session_results (Sample.app Examples.run_counts Examples.fresh).2
      = Some results
      ∧ length results = 2%nat.
Proof.
assert (session_results (Sample.app Examples.run_counts Examples.fresh).2
        ≠ session_results Examples.fresh) as Hchanged
  by decide_by_computation.
destruct (results_replaced_only_by_a_completed_run
            Sample.log2 Sample.str_to_float Sample.read_csv
            Examples.run_counts Examples.fresh Hchanged)
  as (Hbutton & uploaded & df0 & results & Hup & Hload & _ & Hslot & Hlen & _).
split; [exact Hbutton|]. exists results. split; [exact Hslot|].
injection Hup as <-.
assert (load_dataset Sample.read_csv Examples.counts = inr Examples.counts_frame)
  as Hframe by decide_by_computation.
rewrite Hframe in Hload. injection Hload as <-. exact Hlen.
Defined.

(** X13.  What the results tab shows of a stored table, when it returns
    (a heat map over an empty selection of samples is left out of the
    statement): the number it announces is the number of rows of the view,
    the table and the download carry that same view, a heat map is drawn
    exactly when the view is not empty and lists the genes of the view in
    their order, and the two scatter plots are drawn from the whole stored
    table, with one flag per gene; every gene of the view is flagged in
    both. *)
Theorem results_tab_shows_one_view inp cols w results :
  session_results w = Some results →
  cols ≠ Some [] →
  (tab2 inp cols w).1 = Done () →
  let view :=
    filtered_df results (fdr_cutoff inp) (base_mean_cutoff inp)
      (log2fc_cutoff inp) in
  let flags := highlighted results (fdr_cutoff inp) in
  ∃ heat_map,
    page (tab2 inp cols w).2
    = page w
      ++ [st_header "📊 Differential Expression Results and Visualization";
          st_write (message_detected (length view))]
      ++ heat_map
      ++ [st_ma_plot results flags; st_volcano_plot results flags;
          st_table view; st_download_button view]
    ∧ (view = [] → heat_map = [])
    ∧ (view ≠ [] →
       ∃ sample_cols, cols = Some sample_cols
                      ∧ heat_map = [st_heatmap (Gene <$> view) sample_cols])
    ∧ view `sublist_of` results
    ∧ length flags = length results
    ∧ ∀ i r, results !! i = Some r → r ∈ view → flags !! i = Some true.
Proof.
intros Hres _ Hdone view flags. rewrite tab2_cases in Hdone |- *.
rewrite Hres in Hdone |- *. cbv zeta in Hdone |- *.
fold view in Hdone |- *. fold flags.
assert (view `sublist_of` results ∧ length flags = length results
        ∧ ∀ i r, results !! i = Some r → r ∈ view → flags !! i = Some true)
  as Hview.
{ unfold view, flags, highlighted. rewrite filtered_df_filter.
  split; [apply sublist_filter|]. split; [by rewrite length_fmap|].
  intros i r Hi [(Hfdr & _ & _) _]%list_elem_of_filter.
  by rewrite list_lookup_fmap, Hi, <- Hfdr. }
destruct (decide (view = [])) as [Hempty|Hrows].
- exists []. split; [done|]. split; [done|]. split; [done|exact Hview].
- destruct cols as [sample_cols|]; [|done].
  destruct (heatmap_of sample_cols) as [?|[]]; [done|].
  exists [st_heatmap (Gene <$> view) sample_cols].
  split; [done|]. split; [done|]. split; [|exact Hview].
  intros _. by exists sample_cols.
Qed.

Lemma results_tab_shows_one_view_witness :
  let w := {| session_results := Some Examples.two_genes; page := [] |} in
  page (tab2 Examples.default_thresholds (Some ["T1"; "U1"]) w).2
  = [st_header "📊 Differential Expression Results and Visualization";
     st_write (message_detected 1);
     st_heatmap [Text "G1"] ["T1"; "U1"];
     st_ma_plot Examples.two_genes [true; true];
     st_volcano_plot Examples.two_genes [true; true];
     st_table [Examples.strong_row];
     st_download_button [Examples.strong_row]].
Proof.
intros w.
assert ((tab2 Examples.default_thresholds (Some ["T1"; "U1"]) w).1 = Done ())
  as Hdone by decide_by_computation.
assert (Some ["T1"; "U1"] ≠ Some []) as Hselected by discriminate.
destruct (results_tab_shows_one_view Examples.default_thresholds
            (Some ["T1"; "U1"]) w Examples.two_genes eq_refl Hselected Hdone)
  as (heat_map & Hpage & _ & Hheat & _).
destruct Hheat as (sample_cols & Hcols & ->); [decide_by_computation|].
injection Hcols as <-. rewrite Hpage.
decide_by_computation.
Defined.

(** ** Genes without a value in one group *)



(** ** Trimmed column names *)

Section trimming.
Implicit Types (s rest front : string) (c : ascii).

Lemma lstrip_first s c rest : lstrip s = String c rest → isspace c = false.
Proof.
induction s as [|a s IH]; simpl; [done|].
destruct (isspace a) eqn:Ha; [done|]. by intros [= <- <-].
Qed.

Lemma lstrip_fixed c rest :
  isspace c = false → lstrip (String c rest) = String c rest.
Proof. simpl. by intros ->. Qed.

Lemma rstrip_cons c s :
  rstrip (String c s)
  = match rstrip s with
    | EmptyString => if isspace c then EmptyString else String c EmptyString
    | r => String c r
    end.
Proof. reflexivity. Qed.

Lemma rstrip_first s c rest :
  rstrip s = String c rest → ∃ rest', s = String c rest'.
Proof.
destruct s as [|a s]; [done|]. rewrite rstrip_cons.
destruct (rstrip s); [destruct (isspace a)|]; intros [= <- <-]; by eexists.
Qed.

Lemma rstrip_idem s : rstrip (rstrip s) = rstrip s.
Proof.
induction s as [|a s IH]; [done|]. rewrite rstrip_cons.
destruct (rstrip s) as [|b r] eqn:Hr.
- destruct (isspace a) eqn:Ha; [done|]. by rewrite rstrip_cons, Ha.
- by rewrite rstrip_cons, IH.
Qed.

Lemma rstrip_last s front c :
  rstrip s = front +:+ String c "" → isspace c = false.
Proof.
revert front. induction s as [|a s IH]; intros front.
{ by destruct front. }
rewrite rstrip_cons. destruct (rstrip s) as [|b r] eqn:Hr.
- destruct (isspace a) eqn:Ha; [by destruct front|].
  destruct front as [|x [|y front]]; simpl; [|done..]. by intros [= <-].
- destruct front as [|x front]; simpl; [done|].
  intros [= <- Hrest]. by apply (IH front).
Qed.

Lemma strip_idem s : strip (strip s) = strip s.
Proof.
unfold strip. destruct (rstrip (lstrip s)) as [|c rest] eqn:Hr; [done|].
destruct (rstrip_first _ _ _ Hr) as [rest' Hl].
rewrite lstrip_fixed by (by eapply lstrip_first).
rewrite <- Hr. apply rstrip_idem.
Qed.

Lemma strip_first s c rest : strip s = String c rest → isspace c = false.
Proof.
unfold strip. intros [rest' Hl]%rstrip_first. by eapply lstrip_first.
Qed.

End trimming.

(** X15.  After the trimming of line 47 no column name begins or ends with
    an ASCII white-space character; the number of rows and the cells of the
    columns are as read; trimming a second time changes nothing, and a frame
    whose names need no trimming is left as it is. *)
Theorem trimmed_column_names (df : DataFrame) :
  let df' := strip_columns df in
  nrows df' = nrows df
  ∧ (columns df').*2 = (columns df).*2
  ∧ Forall (λ name,
              (∀ c rest, name = String c rest → isspace c = false)
              ∧ (∀ front c, name = front +:+ String c "" → isspace c = false))
      (column_names df')
  ∧ strip_columns df' = df'
  ∧ (Forall (λ name, strip name = name) (column_names df) → df' = df).
Proof.
intros df'. split; [done|]. split; [|split; [|split]].
- unfold df', strip_columns. simpl. rewrite <- list_fmap_compose.
  by apply list_fmap_ext.
- unfold df', strip_columns, column_names. simpl.
  rewrite <- list_fmap_compose. apply Forall_fmap, Forall_forall.
  intros [name col] _. simpl. split.
  + intros c rest. apply strip_first.
  + intros front c. unfold strip. apply rstrip_last.
- unfold df', strip_columns. simpl. f_equal.
  rewrite <- list_fmap_compose. apply list_fmap_ext.
  intros _ [name col] _. simpl. by rewrite strip_idem.
- intros Hall. unfold df', strip_columns. destruct df as [n cols]. simpl in *.
  f_equal. unfold column_names in Hall. simpl in Hall.
  induction cols as [|[name col] cols IH]; [done|].
  csimpl in *. apply Forall_cons in Hall as [-> Hall]. by rewrite IH.
Qed.

